(** * DISANAMMUtils: event selection and missing-kaon reconstruction

    Shallow embedding of [DreamAN/DrawHist/DISANAMMUtils.h].

    Conventions of the embedding.
    - [float] and [double] values are read in exact arithmetic, as real
      numbers: rounding, overflow, underflow and the float/double casts are
      the identity.  What is proved of [MomentumFunc], [ThetaFunc],
      [PhiFunc] and [invMass_KpKm] is proved of this reading.
    - A value of type [fp] is the result of a floating-point expression that
      may leave the finite reals: [None] stands for a NaN or an infinity
      (division by zero, square root of a negative number, [acos] outside
      [-1, 1]).
    - The 32-bit computation itself is given for the arithmetic of the two
      three-vector helpers ([norm_f32], [MomentumFunc_f32],
      [ThetaFunc_cos_f32]) over IEEE binary32 numbers; it is where the
      exact reading and the code part ways (squares that underflow or
      overflow).
    - [ROOT::VecOps::RVec] columns are lists read by index.  [operator[]] is
      unchecked in the source, so a read past the end has no defined result:
      it is [None] in the monad [ub] and aborts the lambda.
    - [int] counters are unbounded integers; they never exceed the number of
      loop iterations (see [phi_counts_bounded]). *)

From Stdlib Require Import Reals Lra Lia ZArith List Bool.
From Stdlib Require Import Floats.SpecFloat.
From stdpp Require Import base option list.

Local Open Scope R_scope.

(** ** Partial results *)

Definition fp := option R.
Definition ub (A : Type) := option A.

Notation "'do' x '<-' e ';' k" := (match e with Some x => k | None => None end)
  (at level 10, x name, e at level 100, k at level 200, only parsing).

Definition Rneqb (a b : R) : bool := if Req_dec_T a b then false else true.

(** [std::sqrt], [operator/] and [std::acos] on finite arguments. *)
Definition fp_sqrt (x : R) : fp :=
  if Rle_dec 0 x then Some (sqrt x) else None.

Definition fp_div (a b : R) : fp :=
  if Req_dec_T b 0 then None else Some (a / b).

Definition fp_acos (x : R) : fp :=
  if Rle_dec (-1) x then (if Rle_dec x 1 then Some (acos x) else None) else None.

(** [std::atan2(y, x)]: the angle of the point [(x, y)], in [(-PI, PI]];
    [atan2(0, 0)] is [0]. *)
Definition atan2 (y x : R) : R :=
  if Rlt_dec 0 x then atan (y / x)
  else if Rlt_dec x 0 then
    (if Rle_dec 0 y then atan (y / x) + PI else atan (y / x) - PI)
  else if Rlt_dec 0 y then PI / 2
  else if Rlt_dec y 0 then - (PI / 2)
  else 0.

(** ** Constants for masses *)

Definition kMe : R := 511 / 1000000.
Definition kMp : R := 938272 / 1000000.
Definition kMK : R := 493677 / 1000000.

Definition NOT_FOUND : R := -999.

(** ** Convenience 3-vector helpers *)

Definition MomentumFunc (px py pz : R) : fp :=
  fp_sqrt (px * px + py * py + pz * pz).

Definition ThetaFunc (px py pz : R) : fp :=
  do n <- fp_sqrt (px * px + py * py + pz * pz);
  do c <- fp_div pz n;
  fp_acos c.

Definition PhiFunc (px py : R) : R :=
  let phi := atan2 py px in
  if Rlt_dec phi 0 then phi + 2 * PI else phi.

(** ** Event columns *)

(** The per-event arrays read by the lambdas, under their column names. *)
Record Event := mkEvent {
  REC_Particle_pid : list Z;
  REC_Particle_px : list R;
  REC_Particle_py : list R;
  REC_Particle_pz : list R;
  REC_Particle_pass : list bool;
  REC_DaughterParticle_pass : list bool;
  REC_Particle_status : list Z
}.

(** The columns of one event are parallel arrays. *)
Definition parallel (ev : Event) : Prop :=
  length (REC_Particle_px ev) = length (REC_Particle_pid ev) /\
  length (REC_Particle_py ev) = length (REC_Particle_pid ev) /\
  length (REC_Particle_pz ev) = length (REC_Particle_pid ev) /\
  length (REC_Particle_pass ev) = length (REC_Particle_pid ev) /\
  length (REC_DaughterParticle_pass ev) = length (REC_Particle_pid ev) /\
  length (REC_Particle_status ev) = length (REC_Particle_pid ev).

(** ** Picking the first good particle of a species

    [for (size_t i = 0; i < pid.size(); ++i) if (pid[i] == T && pass[i]) BODY;
     return MISS;]
    where [BODY] returns.  [n] is the number of iterations left, [i] the
    loop index; [pass[i]] is read only when [pid[i] == T]. *)
Fixpoint scan_first {B : Type} (target : Z) (pid : list Z) (pass : list bool)
    (body : nat -> ub B) (miss : B) (n i : nat) : ub B :=
  match n with
  | O => Some miss
  | S n' =>
      do id <- pid !! i;
      if (id =? target)%Z then
        do ok <- pass !! i;
        if (ok : bool) then body i
        else scan_first target pid pass body miss n' (S i)
      else scan_first target pid pass body miss n' (S i)
  end.

(** The lambda shared by every [ele_px], [pro_py], [kPlus_pz], ... column:
    [if (pid[i] == target && pass[i]) return v[i]; ... return -999.0f]. *)
Definition pick (target : Z) (pid : list Z) (v : list R) (pass : list bool) : ub R :=
  scan_first target pid pass (fun i => v !! i) NOT_FOUND (length pid) 0.

Definition ele_px (ev : Event) := pick 11 (REC_Particle_pid ev) (REC_Particle_px ev) (REC_Particle_pass ev).
Definition ele_py (ev : Event) := pick 11 (REC_Particle_pid ev) (REC_Particle_py ev) (REC_Particle_pass ev).
Definition ele_pz (ev : Event) := pick 11 (REC_Particle_pid ev) (REC_Particle_pz ev) (REC_Particle_pass ev).
Definition pro_px (ev : Event) := pick 2212 (REC_Particle_pid ev) (REC_Particle_px ev) (REC_Particle_pass ev).
Definition pro_py (ev : Event) := pick 2212 (REC_Particle_pid ev) (REC_Particle_py ev) (REC_Particle_pass ev).
Definition pro_pz (ev : Event) := pick 2212 (REC_Particle_pid ev) (REC_Particle_pz ev) (REC_Particle_pass ev).
Definition kPlus_px (ev : Event) := pick 321 (REC_Particle_pid ev) (REC_Particle_px ev) (REC_Particle_pass ev).
Definition kPlus_py (ev : Event) := pick 321 (REC_Particle_pid ev) (REC_Particle_py ev) (REC_Particle_pass ev).
Definition kPlus_pz (ev : Event) := pick 321 (REC_Particle_pid ev) (REC_Particle_pz ev) (REC_Particle_pass ev).
Definition kMinus_px (ev : Event) := pick (-321) (REC_Particle_pid ev) (REC_Particle_px ev) (REC_Particle_pass ev).
Definition kMinus_py (ev : Event) := pick (-321) (REC_Particle_pid ev) (REC_Particle_py ev) (REC_Particle_pass ev).
Definition kMinus_pz (ev : Event) := pick (-321) (REC_Particle_pid ev) (REC_Particle_pz ev) (REC_Particle_pass ev).

(** The three momentum columns of one species, read together. *)
Definition select (ev : Event) (target : Z) : ub (R * R * R) :=
  do x <- pick target (REC_Particle_pid ev) (REC_Particle_px ev) (REC_Particle_pass ev);
  do y <- pick target (REC_Particle_pid ev) (REC_Particle_py ev) (REC_Particle_pass ev);
  do z <- pick target (REC_Particle_pid ev) (REC_Particle_pz ev) (REC_Particle_pass ev);
  Some (x, y, z).

(** Particle [i] is a good particle of species [target]. *)
Definition candidate (target : Z) (pid : list Z) (pass : list bool) (i : nat) : Prop :=
  pid !! i = Some target /\ pass !! i = Some true.

Definition first_candidate (target : Z) (pid : list Z) (pass : list bool) (i : nat) : Prop :=
  candidate target pid pass i /\
  forall j, (j < i)%nat -> ~ candidate target pid pass j.

(** ** The filter of the all-detected pipeline *)

Definition found_lambda (ex kMinusx kPlusx px : R) : bool :=
  Rneqb ex (-999) && Rneqb kMinusx (-999) && Rneqb kPlusx (-999) && Rneqb px (-999).

Definition InitKinematics_Filter (ev : Event) : ub bool :=
  do ex <- ele_px ev;
  do kmx <- kMinus_px ev;
  do kpx <- kPlus_px ev;
  do px <- pro_px ev;
  Some (found_lambda ex kmx kpx px).

(** ** Detector regions *)

Definition region_of (status : Z) : Z :=
  let abs_status := Z.abs status in
  if (1000 <=? abs_status)%Z && (abs_status <? 2000)%Z then 0%Z
  else if (2000 <=? abs_status)%Z && (abs_status <? 3000)%Z then 1%Z
  else if (4000 <=? abs_status)%Z && (abs_status <? 5000)%Z then 2%Z
  else (-1)%Z.

Definition det_region (target : Z) (pid : list Z) (status : list Z) (pass : list bool) : ub Z :=
  scan_first target pid pass
    (fun i => do st <- status !! i; Some (region_of st)) (-1)%Z (length pid) 0.

Definition kMinus_det_region (ev : Event) := det_region (-321) (REC_Particle_pid ev) (REC_Particle_status ev) (REC_Particle_pass ev).
Definition kPlus_det_region (ev : Event) := det_region 321 (REC_Particle_pid ev) (REC_Particle_status ev) (REC_Particle_pass ev).
Definition pro_det_region (ev : Event) := det_region 2212 (REC_Particle_pid ev) (REC_Particle_status ev) (REC_Particle_pass ev).
Definition ele_det_region (ev : Event) := det_region 11 (REC_Particle_pid ev) (REC_Particle_status ev) (REC_Particle_pass ev).

(** ** Event selection cuts *)

(** The locals of the exclusive-phi lambda. *)
Record phi_locals := mkPhiLocals {
  n_e : Z; n_km : Z; n_kp : Z; n_p : Z; hasPhiDaughter : bool
}.

(** Loop body of [SelectExclusivePhiEvent].  The clause
    [|| daughterPass[i]] is commented out in the source, so both kaon
    branches assign [hasPhiDaughter] to itself and [daughterPass] is never
    read. *)
Fixpoint phi_loop (pid : list Z) (pass : list bool) (n i : nat) (s : phi_locals)
    : ub phi_locals :=
  match n with
  | O => Some s
  | S n' =>
      do ok <- pass !! i;
      if negb ok then phi_loop pid pass n' (S i) s
      else
        do id <- pid !! i;
        if (id =? 11)%Z then
          phi_loop pid pass n' (S i)
            (mkPhiLocals (n_e s + 1) (n_km s) (n_kp s) (n_p s) (hasPhiDaughter s))
        else if (id =? 321)%Z then
          phi_loop pid pass n' (S i)
            (mkPhiLocals (n_e s) (n_km s) (n_kp s + 1) (n_p s) (hasPhiDaughter s))
        else if (id =? -321)%Z then
          phi_loop pid pass n' (S i)
            (mkPhiLocals (n_e s) (n_km s + 1) (n_kp s) (n_p s) (hasPhiDaughter s))
        else if (id =? 2212)%Z then
          phi_loop pid pass n' (S i)
            (mkPhiLocals (n_e s) (n_km s) (n_kp s) (n_p s + 1) (hasPhiDaughter s))
        else phi_loop pid pass n' (S i) s
  end.

Definition SelectExclusivePhiEvent (pid : list Z) (pass daughterPass : list bool)
    : ub bool :=
  do s <- phi_loop pid pass (length pid) 0 (mkPhiLocals 0 0 0 0 true);
  Some ((n_e s =? 1)%Z && (1 <=? n_kp s)%Z && (1 <=? n_km s)%Z && (1 <=? n_p s)%Z
        && hasPhiDaughter s).

(** Loop of [RejectPi0TwoPhoton]: a good particle with the daughter flag
    returns [false] from inside the loop. *)
Fixpoint pi0_loop (pid : list Z) (pass daughterPass : list bool) (n i : nat)
    (e g p : Z) : ub bool :=
  match n with
  | O => Some ((e =? 1)%Z && (g =? 1)%Z && (p =? 1)%Z)
  | S n' =>
      do ok <- pass !! i;
      if negb ok then pi0_loop pid pass daughterPass n' (S i) e g p
      else
        do d <- daughterPass !! i;
        if (d : bool) then Some false
        else
          do id <- pid !! i;
          if (id =? 11)%Z then pi0_loop pid pass daughterPass n' (S i) (e + 1) g p
          else if (id =? 22)%Z then pi0_loop pid pass daughterPass n' (S i) e (g + 1) p
          else if (id =? 2212)%Z then pi0_loop pid pass daughterPass n' (S i) e g (p + 1)
          else pi0_loop pid pass daughterPass n' (S i) e g p
  end.

Definition RejectPi0TwoPhoton (pid : list Z) (pass daughterPass : list bool) : ub bool :=
  pi0_loop pid pass daughterPass (length pid) 0 0 0 0.

(** Number of good particles of species [k] in the parallel arrays. *)
Fixpoint count_good (k : Z) (pid : list Z) (pass : list bool) : Z :=
  match pid, pass with
  | id :: pid', ok :: pass' =>
      ((if ok && (id =? k)%Z then 1 else 0) + count_good k pid' pass')%Z
  | _, _ => 0%Z
  end.

(** The same count over the particles from index [i] on. *)
Definition good_from (k : Z) (pid : list Z) (pass : list bool) (i : nat) : Z :=
  count_good k (drop i pid) (drop i pass).

(** Some good particle carries the daughter flag. *)
Definition flagged (pass daughterPass : list bool) : Prop :=
  exists i, pass !! i = Some true /\ daughterPass !! i = Some true.

(** ** Four-vectors *)

(** [TLorentzVector(x, y, z, t)] with its accessors and operators. *)
Record TLorentzVector := mkTLorentzVector { Px : R; Py : R; Pz : R; E : R }.

Definition lv_add (a b : TLorentzVector) : TLorentzVector :=
  mkTLorentzVector (Px a + Px b) (Py a + Py b) (Pz a + Pz b) (E a + E b).

Definition lv_sub (a b : TLorentzVector) : TLorentzVector :=
  mkTLorentzVector (Px a - Px b) (Py a - Py b) (Pz a - Pz b) (E a - E b).

Declare Scope lv_scope.
Delimit Scope lv_scope with lv.
Bind Scope lv_scope with TLorentzVector.
Infix "+" := lv_add : lv_scope.
Infix "-" := lv_sub : lv_scope.

(** ** Missing-kaon reconstruction *)

Definition pBeam (beam_energy : R) : TLorentzVector :=
  mkTLorentzVector 0 0 beam_energy beam_energy.

Definition pTarg : TLorentzVector := mkTLorentzVector 0 0 0 kMp.

(** Body shared by the [kMinus_miss_p*] and [kPlus_miss_p*] lambdas, which
    differ in the accessor applied to the balance; [k] is the detected
    kaon. *)
Definition missing_kaon (comp : TLorentzVector -> R) (beam_energy : R)
    (epx epy epz ppx ppy ppz kx ky kz : R) : fp :=
  do Ee <- fp_sqrt (epx * epx + epy * epy + epz * epz + kMe * kMe);
  let e := mkTLorentzVector epx epy epz Ee in
  do Ep <- fp_sqrt (ppx * ppx + ppy * ppy + ppz * ppz + kMp * kMp);
  let p := mkTLorentzVector ppx ppy ppz Ep in
  do Ek <- fp_sqrt (kx * kx + ky * ky + kz * kz + kMK * kMK);
  let k := mkTLorentzVector kx ky kz Ek in
  Some (comp (pBeam beam_energy + pTarg - e - p - k)%lv).

Definition kMinus_miss_px := missing_kaon Px.
Definition kMinus_miss_py := missing_kaon Py.
Definition kMinus_miss_pz := missing_kaon Pz.
Definition kPlus_miss_px := missing_kaon Px.
Definition kPlus_miss_py := missing_kaon Py.
Definition kPlus_miss_pz := missing_kaon Pz.

(** A detected particle on its mass shell. *)
Definition on_shell (px py pz m : R) : TLorentzVector :=
  mkTLorentzVector px py pz (sqrt (px * px + py * py + pz * pz + m * m)).

(** ** Ready-to-fit aliases of the missing-K+ pipeline *)

Definition Mx2_epKm_forCut (v : R) : R := v.

Definition Mx_epKm_forCut (v : R) : fp :=
  if Rlt_dec 0 v then fp_sqrt v else Some (-999).

(** ** Invariant mass of the kaon pair *)

Definition invMass_KpKm (px1 py1 pz1 px2 py2 pz2 : R) : fp :=
  let mK := kMK in
  do E1 <- fp_sqrt (px1 * px1 + py1 * py1 + pz1 * pz1 + mK * mK);
  do E2 <- fp_sqrt (px2 * px2 + py2 * py2 + pz2 * pz2 + mK * mK);
  let px := px1 + px2 in
  let py := py1 + py2 in
  let pz := pz1 + pz2 in
  let E := E1 + E2 in
  fp_sqrt (E * E - (px * px + py * py + pz * pz)).

(** ** The three-vector helpers in 32-bit arithmetic *)

(** IEEE binary32: 24 bits of precision, exponents below 128, every
    operation rounded to nearest even. *)
Module F32.
Definition prec : Z := 24.
Definition emax : Z := 128.
Definition mul : spec_float -> spec_float -> spec_float := SFmul prec emax.
Definition add : spec_float -> spec_float -> spec_float := SFadd prec emax.
Definition div : spec_float -> spec_float -> spec_float := SFdiv prec emax.
Definition sqrt : spec_float -> spec_float := SFsqrt prec emax.
Definition leb : spec_float -> spec_float -> bool := SFleb.
End F32.

(** [std::sqrt(px * px + py * py + pz * pz)] on [float] operands: value of
    [MomentumFunc] and divisor of [ThetaFunc]. *)
Definition norm_f32 (px py pz : spec_float) : spec_float :=
  F32.sqrt (F32.add (F32.add (F32.mul px px) (F32.mul py py)) (F32.mul pz pz)).

Definition MomentumFunc_f32 (px py pz : spec_float) : spec_float :=
  norm_f32 px py pz.

(** The argument [ThetaFunc] hands to [std::acos]. *)
Definition ThetaFunc_cos_f32 (px py pz : spec_float) : spec_float :=
  F32.div pz (norm_f32 px py pz).

(** The binary32 numbers 0, -999, 2^-100 and 2^64. *)
Definition f32_zero : spec_float := S754_zero false.
Definition f32_tiny : spec_float := S754_finite false 8388608 (-123).
Definition f32_huge : spec_float := S754_finite false 8388608 41.

(** ** Sample events *)

(** The closing K- of the event with electron (0.1, 0.2, 9.0), proton
    (0.3, -0.1, 1.0) and K+ (0.05, 0.05, 0.5) at beam energy 10.6. *)
Definition closing_kMinus : TLorentzVector :=
  (mkTLorentzVector 0 0 (106 / 10) (106 / 10) + mkTLorentzVector 0 0 0 kMp
   - on_shell (1 / 10) (2 / 10) 9 kMe - on_shell (3 / 10) (- 1 / 10) 1 kMp
   - on_shell (5 / 100) (5 / 100) (5 / 10) kMK)%lv.

(** One electron and two good K+, the second behind the first. *)
Definition two_kPlus : Event :=
  mkEvent [11%Z; 321%Z; 321%Z]
          [1; 2; 3] [4; 5; 6] [7; 8; 9]
          [true; true; true] [false; false; false]
          [(-2100)%Z; 2200%Z; 4100%Z].

(** All four species detected; the electron's px is exactly -999. *)
Definition electron_at_sentinel : Event :=
  mkEvent [11%Z; (-321)%Z; 321%Z; 2212%Z]
          [-999; 1; 1; 1] [2; 2; 2; 2] [3; 3; 3; 3]
          [true; true; true; true] [false; false; false; false]
          [(-2100)%Z; 2200%Z; 2300%Z; 4100%Z].

(** All four species detected with ordinary momenta. *)
Definition four_detected : Event :=
  mkEvent [11%Z; (-321)%Z; 321%Z; 2212%Z]
          [1; 1; 1; 1] [2; 2; 2; 2] [3; 3; 3; 3]
          [true; true; true; true] [false; false; false; false]
          [(-2100)%Z; 2200%Z; 3300%Z; 4100%Z].

(** Electron, photon and proton, all good, no daughter flag. *)
Definition single_photon : Event :=
  mkEvent [11%Z; 22%Z; 2212%Z]
          [1; 1; 1] [2; 2; 2] [3; 3; 3]
          [true; true; true] [false; false; false]
          [(-2100)%Z; 2200%Z; 4100%Z].

(** The same event with the photon flagged as a pi0 daughter. *)
Definition pi0_photon : Event :=
  mkEvent [11%Z; 22%Z; 2212%Z]
          [1; 1; 1] [2; 2; 2] [3; 3; 3]
          [true; true; true] [false; true; false]
          [(-2100)%Z; 2200%Z; 4100%Z].

(** The species of the all-detected pipeline with their region columns. *)
Definition det_region_columns : list (Z * (Event -> ub Z)) :=
  [(11%Z, ele_det_region); ((-321)%Z, kMinus_det_region);
   (321%Z, kPlus_det_region); (2212%Z, pro_det_region)].

(** ** The missing-K- topology cut *)

Fixpoint missKm_loop (pid : list Z) (pass : list bool) (n i : nat) (e kp p : Z)
    : ub bool :=
  match n with
  | O => Some ((e =? 1)%Z && (1 <=? kp)%Z && (1 <=? p)%Z)
  | S n' =>
      do ok <- pass !! i;
      if negb ok then missKm_loop pid pass n' (S i) e kp p
      else
        do id <- pid !! i;
        if (id =? 11)%Z then missKm_loop pid pass n' (S i) (e + 1) kp p
        else if (id =? 321)%Z then missKm_loop pid pass n' (S i) e (kp + 1) p
        else if (id =? 2212)%Z then missKm_loop pid pass n' (S i) e kp (p + 1)
        else missKm_loop pid pass n' (S i) e kp p
  end.

Definition SelectPhiEvent_MissingKm (pid : list Z) (pass : list bool) : ub bool :=
  missKm_loop pid pass (length pid) 0 0 0 0.

(** Number of good particles of species [k] in a list of (pid, pass) pairs. *)
Fixpoint count_pairs (k : Z) (l : list (Z * bool)) : Z :=
  match l with
  | [] => 0%Z
  | (id, ok) :: l' => ((if ok && (id =? k)%Z then 1 else 0) + count_pairs k l')%Z
  end.

(** ** Columns defined from columns

    [df.Define(name, f, {c1, ..., cn})]: the new column applies [f] to the
    values of the named columns of the same event. *)
Definition define3 (f : R -> R -> R -> fp) (c1 c2 c3 : Event -> fp) (ev : Event) : fp :=
  do x1 <- c1 ev; do x2 <- c2 ev; do x3 <- c3 ev; f x1 x2 x3.

Definition define2 (f : R -> R -> R) (c1 c2 : Event -> fp) (ev : Event) : fp :=
  do x1 <- c1 ev; do x2 <- c2 ev; Some (f x1 x2).

Definition define9 (f : R -> R -> R -> R -> R -> R -> R -> R -> R -> fp)
    (c1 c2 c3 c4 c5 c6 c7 c8 c9 : Event -> fp) (ev : Event) : fp :=
  do x1 <- c1 ev; do x2 <- c2 ev; do x3 <- c3 ev;
  do x4 <- c4 ev; do x5 <- c5 ev; do x6 <- c6 ev;
  do x7 <- c7 ev; do x8 <- c8 ev; do x9 <- c9 ev;
  f x1 x2 x3 x4 x5 x6 x7 x8 x9.

(** The reconstructed-kaon columns of [InitKinematics_MissingKm]. *)
Module MissingKm.
Definition kMinus_miss_px (beam_energy : R) : Event -> fp :=
  define9 (missing_kaon Px beam_energy)
    ele_px ele_py ele_pz pro_px pro_py pro_pz kPlus_px kPlus_py kPlus_pz.
Definition kMinus_miss_py (beam_energy : R) : Event -> fp :=
  define9 (missing_kaon Py beam_energy)
    ele_px ele_py ele_pz pro_px pro_py pro_pz kPlus_px kPlus_py kPlus_pz.
Definition kMinus_miss_pz (beam_energy : R) : Event -> fp :=
  define9 (missing_kaon Pz beam_energy)
    ele_px ele_py ele_pz pro_px pro_py pro_pz kPlus_px kPlus_py kPlus_pz.
End MissingKm.

(** The reconstructed-kaon columns of [InitKinematics_MissingKp]. *)
Module MissingKp.
Definition kPlus_miss_px (beam_energy : R) : Event -> fp :=
  define9 (missing_kaon Px beam_energy)
    ele_px ele_py ele_pz pro_px pro_py pro_pz kMinus_px kMinus_py kMinus_pz.
Definition kPlus_miss_py (beam_energy : R) : Event -> fp :=
  define9 (missing_kaon Py beam_energy)
    ele_px ele_py ele_pz pro_px pro_py pro_pz kMinus_px kMinus_py kMinus_pz.
Definition kPlus_miss_pz (beam_energy : R) : Event -> fp :=
  define9 (missing_kaon Pz beam_energy)
    ele_px ele_py ele_pz pro_px pro_py pro_pz kMinus_px kMinus_py kMinus_pz.
End MissingKp.

(** The detected-particle columns shared by the three pipelines. *)
Definition recel_p : Event -> fp := define3 MomentumFunc ele_px ele_py ele_pz.
Definition recel_theta : Event -> fp := define3 ThetaFunc ele_px ele_py ele_pz.
Definition recel_phi : Event -> fp := define2 PhiFunc ele_px ele_py.
Definition recpro_p : Event -> fp := define3 MomentumFunc pro_px pro_py pro_pz.
Definition recpro_theta : Event -> fp := define3 ThetaFunc pro_px pro_py pro_pz.
Definition recpro_phi : Event -> fp := define2 PhiFunc pro_px pro_py.

(** [four_detected] with its particles in another order. *)
Definition four_detected_reordered : Event :=
  mkEvent [2212%Z; 321%Z; 11%Z; (-321)%Z]
          [1; 1; 1; 1] [2; 2; 2; 2] [3; 3; 3; 3]
          [true; true; true; true] [false; false; false; false]
          [4100%Z; 3300%Z; (-2100)%Z; 2200%Z].

(** * Properties *)

(** ** Floating-point primitives on their domain *)

Lemma fp_sqrt_nonneg x : 0 <= x -> fp_sqrt x = Some (sqrt x).
Proof. intros Hx. unfold fp_sqrt. destruct (Rle_dec 0 x); [reflexivity | contradiction]. Qed.

Lemma fp_sqrt_neg x : x < 0 -> fp_sqrt x = None.
Proof. intros Hx. unfold fp_sqrt. destruct (Rle_dec 0 x); [lra | reflexivity]. Qed.

Lemma fp_div_nonzero a b : b <> 0 -> fp_div a b = Some (a / b).
Proof. intros Hb. unfold fp_div. destruct (Req_dec_T b 0); [contradiction | reflexivity]. Qed.

Lemma fp_div_zero a : fp_div a 0 = None.
Proof. unfold fp_div. destruct (Req_dec_T 0 0); [reflexivity | lra]. Qed.

Lemma fp_acos_in_range x : -1 <= x <= 1 -> fp_acos x = Some (acos x).
Proof.
  intros [Hl Hu]. unfold fp_acos.
  destruct (Rle_dec (-1) x); [| contradiction].
  destruct (Rle_dec x 1); [reflexivity | contradiction].
Qed.

Lemma sum_squares_nonneg x y z : 0 <= x * x + y * y + z * z.
Proof. nra. Qed.

Lemma shell_nonneg x y z m : 0 <= x * x + y * y + z * z + m * m.
Proof. nra. Qed.

Lemma sum_squares_pos x y z :
  x <> 0 \/ y <> 0 \/ z <> 0 -> 0 < x * x + y * y + z * z.
Proof. intros [H | [H | H]]; nra. Qed.

Lemma Rneqb_true a b : Rneqb a b = true <-> a <> b.
Proof. unfold Rneqb. destruct (Req_dec_T a b); split; congruence. Qed.

Lemma Rneqb_false a b : Rneqb a b = false <-> a = b.
Proof. unfold Rneqb. destruct (Req_dec_T a b); split; congruence. Qed.

Create HintDb fpdb.
#[local] Hint Resolve sum_squares_nonneg shell_nonneg : fpdb.

Lemma MomentumFunc_total px py pz :
  MomentumFunc px py pz = Some (sqrt (px * px + py * py + pz * pz)).
Proof. unfold MomentumFunc. apply fp_sqrt_nonneg. auto with fpdb. Qed.

(** ** Azimuthal angle *)

Lemma atan_nonpos t : t <= 0 -> atan t <= 0.
Proof.
  intros [Ht | ->].
  - left. rewrite <- atan_0. now apply atan_increasing.
  - rewrite atan_0. lra.
Qed.

Lemma atan_pos t : 0 < t -> 0 < atan t.
Proof. intros Ht. rewrite <- atan_0. now apply atan_increasing. Qed.

Lemma atan2_bound y x : - PI < atan2 y x <= PI.
Proof.
  pose proof PI_RGT_0 as Hpi.
  unfold atan2.
  destruct (Rlt_dec 0 x) as [Hx | Hx].
  - pose proof (atan_bound (y / x)). lra.
  - destruct (Rlt_dec x 0) as [Hx' | Hx'].
    + pose proof (atan_bound (y / x)) as Hb.
      destruct (Rle_dec 0 y) as [Hy | Hy].
      * assert (y / x <= 0) as Hq.
        { unfold Rdiv. assert (/ x < 0) by now apply Rinv_neg. nra. }
        pose proof (atan_nonpos _ Hq). lra.
      * assert (0 < y / x) as Hq.
        { unfold Rdiv. assert (/ x < 0) by now apply Rinv_neg. nra. }
        pose proof (atan_pos _ Hq). lra.
    + destruct (Rlt_dec 0 y); [lra |].
      destruct (Rlt_dec y 0); lra.
Qed.

Lemma PhiFunc_quadrant1 : PhiFunc 1 1 = PI / 4.
Proof.
  pose proof PI_RGT_0 as Hpi.
  unfold PhiFunc, atan2.
  destruct (Rlt_dec 0 1); [| lra].
  replace (1 / 1) with 1 by field. rewrite atan_1.
  destruct (Rlt_dec (PI / 4) 0); lra.
Qed.

Lemma PhiFunc_quadrant4 : PhiFunc 1 (-1) = 7 * PI / 4.
Proof.
  pose proof PI_RGT_0 as Hpi.
  unfold PhiFunc, atan2.
  destruct (Rlt_dec 0 1); [| lra].
  replace (-1 / 1) with (Ropp 1) by field. rewrite atan_opp, atan_1.
  destruct (Rlt_dec (- (PI / 4)) 0); lra.
Qed.

(** C5. [PhiFunc] is normalised to [[0, 2 PI)]; [PhiFunc(1,-1)] is
    [7 PI / 4], [PhiFunc(1,1)] is [PI / 4], and the two differ by [PI / 2]
    modulo [2 PI]. *)
Theorem PhiFunc_normalised :
  (forall px py, 0 <= PhiFunc px py < 2 * PI) /\
  PhiFunc 1 (-1) = 7 * PI / 4 /\
  PhiFunc 1 1 = PI / 4 /\
  Rabs (PhiFunc 1 (-1) - PhiFunc 1 1 - 2 * PI) = PI / 2.
Proof.
  pose proof PI_RGT_0 as Hpi.
  split; [| split; [apply PhiFunc_quadrant4 | split; [apply PhiFunc_quadrant1 |]]].
  - intros px py. unfold PhiFunc.
    pose proof (atan2_bound py px) as Hb.
    destruct (Rlt_dec (atan2 py px) 0); lra.
  - rewrite PhiFunc_quadrant4, PhiFunc_quadrant1.
    replace (7 * PI / 4 - PI / 4 - 2 * PI) with (- (PI / 2)) by field.
    rewrite Rabs_Ropp. apply Rabs_pos_eq. lra.
Qed.

(** ** Polar angle *)

Lemma cosine_in_range px py pz :
  0 < px * px + py * py + pz * pz ->
  -1 <= pz / sqrt (px * px + py * py + pz * pz) <= 1.
Proof.
  intros Hs.
  set (s := px * px + py * py + pz * pz) in *.
  assert (0 < sqrt s) as Hn by now apply sqrt_lt_R0.
  assert (sqrt s * sqrt s = s) as Hsq by (apply sqrt_sqrt; lra).
  assert (pz * pz <= sqrt s * sqrt s) as Hle by (subst s; nra).
  assert (- sqrt s <= pz <= sqrt s) as [Hlo Hhi] by (split; nra).
  split.
  - apply Rmult_le_reg_r with (sqrt s); [exact Hn |].
    unfold Rdiv. rewrite Rmult_assoc, Rinv_l by lra. lra.
  - apply Rmult_le_reg_r with (sqrt s); [exact Hn |].
    unfold Rdiv. rewrite Rmult_assoc, Rinv_l by lra. lra.
Qed.

Lemma ThetaFunc_nonzero px py pz :
  px <> 0 \/ py <> 0 \/ pz <> 0 ->
  ThetaFunc px py pz = Some (acos (pz / sqrt (px * px + py * py + pz * pz))).
Proof.
  intros Hnz. pose proof (sum_squares_pos _ _ _ Hnz) as Hs.
  unfold ThetaFunc.
  rewrite fp_sqrt_nonneg by lra.
  rewrite fp_div_nonzero by (apply Rgt_not_eq, sqrt_lt_R0, Hs).
  now rewrite fp_acos_in_range by (apply cosine_in_range, Hs).
Qed.

Lemma ThetaFunc_zero : ThetaFunc 0 0 0 = None.
Proof.
  unfold ThetaFunc. rewrite fp_sqrt_nonneg by lra.
  replace (0 * 0 + 0 * 0 + 0 * 0) with 0 by ring.
  rewrite sqrt_0. now rewrite fp_div_zero.
Qed.



(** Where the exact reading and the 32-bit code part ways: a square that
    underflows is lost, a square that overflows is an infinity. *)
Lemma MomentumFunc_f32_underflow_overflow :
  MomentumFunc_f32 f32_tiny f32_zero f32_zero = S754_zero false /\
  MomentumFunc_f32 f32_huge f32_zero f32_zero = S754_infinity false /\
  ThetaFunc_cos_f32 f32_huge f32_zero f32_huge = S754_zero false.
Proof. repeat split; vm_compute; reflexivity. Qed.




(** ** Square-root alias *)

(** C4, as the code has it: the alias is the sentinel for every value that
    is not strictly positive, zero included, and the square root for every
    positive value. *)
Theorem Mx_epKm_forCut_alias (Mx2_epKm : R) :
  (Mx2_epKm <= 0 -> Mx_epKm_forCut (Mx2_epKm_forCut Mx2_epKm) = Some (-999)) /\
  (0 < Mx2_epKm ->
     Mx_epKm_forCut (Mx2_epKm_forCut Mx2_epKm) = Some (sqrt Mx2_epKm)).
Proof.
  unfold Mx_epKm_forCut, Mx2_epKm_forCut.
  split; intros Hv; destruct (Rlt_dec 0 Mx2_epKm); try lra; try reflexivity.
  apply fp_sqrt_nonneg. lra.
Qed.

Lemma Mx_epKm_forCut_alias_witness :
  (0 < 4 /\ Mx_epKm_forCut (Mx2_epKm_forCut 4) = Some (sqrt 4)) /\
  (-1 <= 0 /\ Mx_epKm_forCut (Mx2_epKm_forCut (-1)) = Some (-999)).
Proof.
  assert (0 < 4) as Hpos by lra.
  assert (-1 <= 0) as Hneg by lra.
  split.
  - split; [exact Hpos | exact (proj2 (Mx_epKm_forCut_alias 4) Hpos)].
  - split; [exact Hneg | exact (proj1 (Mx_epKm_forCut_alias (-1)) Hneg)].
Defined.

(** C4, as the claim has it, fails at zero: the value is [>= 0], yet the
    alias is the sentinel and not [sqrt 0]. *)
Lemma Mx_epKm_forCut_zero :
  0 >= 0 /\
  Mx_epKm_forCut (Mx2_epKm_forCut 0) = Some (-999) /\
  Mx_epKm_forCut (Mx2_epKm_forCut 0) <> Some (sqrt 0).
Proof.
  assert (Mx_epKm_forCut (Mx2_epKm_forCut 0) = Some (-999)) as H0.
  { unfold Mx_epKm_forCut, Mx2_epKm_forCut. destruct (Rlt_dec 0 0); [lra | reflexivity]. }
  split; [lra |]. split; [exact H0 |].
  rewrite H0, sqrt_0. intros Heq. injection Heq. lra.
Qed.

(** ** Invariant mass of the kaon pair *)

Lemma shell_energy_dominates x y z m :
  sqrt (x * x + y * y + z * z) <= sqrt (x * x + y * y + z * z + m * m).
Proof. apply sqrt_le_1_alt. nra. Qed.

(** Cauchy-Schwarz in three dimensions, with energies in place of norms. *)
Lemma energies_dominate_dot x1 y1 z1 x2 y2 z2 m :
  x1 * x2 + y1 * y2 + z1 * z2 <=
  sqrt (x1 * x1 + y1 * y1 + z1 * z1 + m * m) *
  sqrt (x2 * x2 + y2 * y2 + z2 * z2 + m * m).
Proof.
  set (s1 := x1 * x1 + y1 * y1 + z1 * z1 + m * m).
  set (s2 := x2 * x2 + y2 * y2 + z2 * z2 + m * m).
  set (d := x1 * x2 + y1 * y2 + z1 * z2).
  assert (0 <= s1) as H1 by (subst s1; nra).
  assert (0 <= s2) as H2 by (subst s2; nra).
  rewrite <- sqrt_mult by assumption.
  destruct (Rle_dec d 0) as [Hd | Hd].
  - pose proof (sqrt_pos (s1 * s2)). lra.
  - rewrite <- (sqrt_Rsqr d) by lra.
    apply sqrt_le_1_alt. unfold Rsqr. subst s1 s2 d.
    pose proof (Rle_0_sqr (x1 * y2 - x2 * y1)) as Ha.
    pose proof (Rle_0_sqr (x1 * z2 - x2 * z1)) as Hb.
    pose proof (Rle_0_sqr (y1 * z2 - y2 * z1)) as Hc.
    pose proof (Rle_0_sqr m) as Hm.
    unfold Rsqr in *.
    pose proof (sum_squares_nonneg x1 y1 z1).
    pose proof (sum_squares_nonneg x2 y2 z2).
    nra.
Qed.

Lemma invMass_argument_nonneg px1 py1 pz1 px2 py2 pz2 :
  let E1 := sqrt (px1 * px1 + py1 * py1 + pz1 * pz1 + kMK * kMK) in
  let E2 := sqrt (px2 * px2 + py2 * py2 + pz2 * pz2 + kMK * kMK) in
  0 <= (E1 + E2) * (E1 + E2)
       - ((px1 + px2) * (px1 + px2) + (py1 + py2) * (py1 + py2)
          + (pz1 + pz2) * (pz1 + pz2)).
Proof.
  intros E1 E2.
  assert (E1 * E1 = px1 * px1 + py1 * py1 + pz1 * pz1 + kMK * kMK) as HE1
    by (apply sqrt_sqrt, shell_nonneg).
  assert (E2 * E2 = px2 * px2 + py2 * py2 + pz2 * pz2 + kMK * kMK) as HE2
    by (apply sqrt_sqrt, shell_nonneg).
  pose proof (energies_dominate_dot px1 py1 pz1 px2 py2 pz2 kMK) as Hcs.
  fold E1 E2 in Hcs.
  nra.
Qed.

(** C9. Each kaon energy dominates its momentum, the argument of the final
    square root of [invMass_KpKm] is never negative, and the lambda returns
    a mass for every input, the sentinel components included. *)
Theorem invMass_KpKm_defined (px1 py1 pz1 px2 py2 pz2 : R) :
  let E1 := sqrt (px1 * px1 + py1 * py1 + pz1 * pz1 + kMK * kMK) in
  let E2 := sqrt (px2 * px2 + py2 * py2 + pz2 * pz2 + kMK * kMK) in
  let arg := (E1 + E2) * (E1 + E2)
             - ((px1 + px2) * (px1 + px2) + (py1 + py2) * (py1 + py2)
                + (pz1 + pz2) * (pz1 + pz2)) in
  sqrt (px1 * px1 + py1 * py1 + pz1 * pz1) <= E1 /\
  sqrt (px2 * px2 + py2 * py2 + pz2 * pz2) <= E2 /\
  0 <= arg /\
  invMass_KpKm px1 py1 pz1 px2 py2 pz2 = Some (sqrt arg) /\
  exists m, invMass_KpKm NOT_FOUND NOT_FOUND NOT_FOUND
                         NOT_FOUND NOT_FOUND NOT_FOUND = Some m.
Proof.
  intros E1 E2 arg.
  assert (forall a1 b1 c1 a2 b2 c2, exists m, invMass_KpKm a1 b1 c1 a2 b2 c2 = Some m /\
            m = sqrt ((sqrt (a1 * a1 + b1 * b1 + c1 * c1 + kMK * kMK)
                       + sqrt (a2 * a2 + b2 * b2 + c2 * c2 + kMK * kMK))
                      * (sqrt (a1 * a1 + b1 * b1 + c1 * c1 + kMK * kMK)
                         + sqrt (a2 * a2 + b2 * b2 + c2 * c2 + kMK * kMK))
                      - ((a1 + a2) * (a1 + a2) + (b1 + b2) * (b1 + b2)
                         + (c1 + c2) * (c1 + c2)))) as Htotal.
  { intros. unfold invMass_KpKm.
    rewrite !fp_sqrt_nonneg by auto with fpdb.
    rewrite fp_sqrt_nonneg by apply invMass_argument_nonneg.
    eexists. split; reflexivity. }
  split; [apply shell_energy_dominates |].
  split; [apply shell_energy_dominates |].
  split; [apply invMass_argument_nonneg |].
  split.
  - destruct (Htotal px1 py1 pz1 px2 py2 pz2) as (m & -> & ->). reflexivity.
  - destruct (Htotal NOT_FOUND NOT_FOUND NOT_FOUND NOT_FOUND NOT_FOUND NOT_FOUND)
      as (m & Hm & _). now exists m.
Qed.

(** ** Missing-kaon reconstruction *)

Lemma missing_kaon_total comp beam_energy epx epy epz ppx ppy ppz kx ky kz :
  missing_kaon comp beam_energy epx epy epz ppx ppy ppz kx ky kz =
  Some (comp (pBeam beam_energy + pTarg - on_shell epx epy epz kMe
              - on_shell ppx ppy ppz kMp - on_shell kx ky kz kMK)%lv).
Proof.
  unfold missing_kaon, on_shell.
  now rewrite !fp_sqrt_nonneg by auto with fpdb.
Qed.

(** A four-vector that closes the balance is the balance. *)
Lemma balance_unique (tot e p k1 k2 : TLorentzVector) :
  (e + p + k1 + k2)%lv = tot ->
  Px k2 = Px (tot - e - p - k1)%lv /\
  Py k2 = Py (tot - e - p - k1)%lv /\
  Pz k2 = Pz (tot - e - p - k1)%lv.
Proof. intros <-. simpl. repeat split; ring. Qed.

Lemma balance_unique_swapped (tot e p k1 k2 : TLorentzVector) :
  (e + p + k1 + k2)%lv = tot ->
  Px k1 = Px (tot - e - p - k2)%lv /\
  Py k1 = Py (tot - e - p - k2)%lv /\
  Pz k1 = Pz (tot - e - p - k2)%lv.
Proof. intros <-. simpl. repeat split; ring. Qed.

(** C1. The [kMinus_miss_p*] columns are the momentum components of
    beam + target - electron - proton - K+, each detected vector on its mass
    shell; hence an event whose electron, proton, K+ and some K- four-vectors
    add up to beam + target gives back that K-'s momentum.  The
    [kPlus_miss_p*] columns are the same with the detected K-. *)
Theorem missing_kaon_conservation
    (beam_energy epx epy epz ppx ppy ppz kx ky kz : R) :
  let e := on_shell epx epy epz kMe in
  let p := on_shell ppx ppy ppz kMp in
  let k := on_shell kx ky kz kMK in
  let beam := mkTLorentzVector 0 0 beam_energy beam_energy in
  let target := mkTLorentzVector 0 0 0 kMp in
  let miss := (beam + target - e - p - k)%lv in
  (kMinus_miss_px beam_energy epx epy epz ppx ppy ppz kx ky kz = Some (Px miss) /\
   kMinus_miss_py beam_energy epx epy epz ppx ppy ppz kx ky kz = Some (Py miss) /\
   kMinus_miss_pz beam_energy epx epy epz ppx ppy ppz kx ky kz = Some (Pz miss)) /\
  (kPlus_miss_px beam_energy epx epy epz ppx ppy ppz kx ky kz = Some (Px miss) /\
   kPlus_miss_py beam_energy epx epy epz ppx ppy ppz kx ky kz = Some (Py miss) /\
   kPlus_miss_pz beam_energy epx epy epz ppx ppy ppz kx ky kz = Some (Pz miss)) /\
  (Px miss = 0 + 0 - epx - ppx - kx /\
   Py miss = 0 + 0 - epy - ppy - ky /\
   Pz miss = beam_energy + 0 - epz - ppz - kz) /\
  (forall kMinus : TLorentzVector,
     (e + p + k + kMinus)%lv = (beam + target)%lv ->
     kMinus_miss_px beam_energy epx epy epz ppx ppy ppz kx ky kz = Some (Px kMinus) /\
     kMinus_miss_py beam_energy epx epy epz ppx ppy ppz kx ky kz = Some (Py kMinus) /\
     kMinus_miss_pz beam_energy epx epy epz ppx ppy ppz kx ky kz = Some (Pz kMinus)) /\
  (forall kPlus : TLorentzVector,
     (e + p + kPlus + k)%lv = (beam + target)%lv ->
     kPlus_miss_px beam_energy epx epy epz ppx ppy ppz kx ky kz = Some (Px kPlus) /\
     kPlus_miss_py beam_energy epx epy epz ppx ppy ppz kx ky kz = Some (Py kPlus) /\
     kPlus_miss_pz beam_energy epx epy epz ppx ppy ppz kx ky kz = Some (Pz kPlus)).
Proof.
  intros e p k beam target miss.
  unfold kMinus_miss_px, kMinus_miss_py, kMinus_miss_pz,
         kPlus_miss_px, kPlus_miss_py, kPlus_miss_pz.
  rewrite !missing_kaon_total.
  change (pBeam beam_energy) with beam. change pTarg with target.
  fold e p k. fold miss.
  split; [repeat split |]. split; [repeat split |].
  split; [subst miss; simpl; repeat split; ring |].
  split.
  - intros kMinus Hsum.
    destruct (balance_unique _ _ _ _ _ Hsum) as (-> & -> & ->). repeat split.
  - intros kPlus Hsum.
    destruct (balance_unique_swapped _ _ _ _ _ Hsum) as (-> & -> & ->). repeat split.
Qed.

Lemma missing_kaon_conservation_witness :
  (on_shell (1 / 10) (2 / 10) 9 kMe + on_shell (3 / 10) (- 1 / 10) 1 kMp
   + on_shell (5 / 100) (5 / 100) (5 / 10) kMK + closing_kMinus)%lv
  = (mkTLorentzVector 0 0 (106 / 10) (106 / 10) + mkTLorentzVector 0 0 0 kMp)%lv /\
  kMinus_miss_px (106 / 10) (1 / 10) (2 / 10) 9 (3 / 10) (- 1 / 10) 1
                 (5 / 100) (5 / 100) (5 / 10) = Some (Px closing_kMinus).
Proof.
  assert ((on_shell (1 / 10) (2 / 10) 9 kMe + on_shell (3 / 10) (- 1 / 10) 1 kMp
           + on_shell (5 / 100) (5 / 100) (5 / 10) kMK + closing_kMinus)%lv
          = (mkTLorentzVector 0 0 (106 / 10) (106 / 10)
             + mkTLorentzVector 0 0 0 kMp)%lv) as Hsum.
  { unfold closing_kMinus, lv_add, lv_sub; simpl. f_equal; ring. }
  split; [exact Hsum |].
  exact (proj1 (proj1 (proj2 (proj2 (proj2
    (missing_kaon_conservation (106 / 10) (1 / 10) (2 / 10) 9 (3 / 10) (- 1 / 10) 1
       (5 / 100) (5 / 100) (5 / 10))))) closing_kMinus Hsum)).
Defined.

(** ** The first good particle of a species *)

Section ScanFirst.
Context {B : Type}.
Variables (target : Z) (pid : list Z) (pass : list bool).
Variables (body : nat -> ub B) (miss : B).
Hypothesis pass_parallel : length pass = length pid.

Lemma scan_first_cases n i :
  (i + n = length pid)%nat ->
  (exists k, (i <= k)%nat /\ candidate target pid pass k /\
             (forall j, (i <= j < k)%nat -> ~ candidate target pid pass j) /\
             scan_first target pid pass body miss n i = body k) \/
  ((forall j, (i <= j)%nat -> ~ candidate target pid pass j) /\
   scan_first target pid pass body miss n i = Some miss).
Proof.
  revert i. induction n as [| n IH]; intros i Hlen.
  - right. split; [| reflexivity].
    intros j Hj [Hc _]. apply lookup_lt_Some in Hc. lia.
  - destruct (lookup_lt_is_Some_2 pid i) as [id Hid]; [lia |].
    destruct (lookup_lt_is_Some_2 pass i) as [ok Hok]; [lia |].
    assert (candidate target pid pass i \/ ~ candidate target pid pass i) as [Hc | Hc].
    { unfold candidate. rewrite Hid, Hok.
      destruct (Z.eq_dec id target) as [-> | Hne]; [| right; intros [? _]; congruence].
      destruct ok; [left; split; reflexivity | right; intros [_ ?]; congruence]. }
    + left. exists i. split; [lia |]. split; [exact Hc |]. split; [intros j ?; lia |].
      destruct Hc as [Hc1 Hc2]. simpl. rewrite Hc1, Z.eqb_refl, Hc2. reflexivity.
    + assert (scan_first target pid pass body miss (S n) i =
              scan_first target pid pass body miss n (S i)) as ->.
      { simpl. rewrite Hid, Hok.
        destruct (Z.eqb_spec id target) as [-> | Hne]; [| reflexivity].
        destruct ok; [| reflexivity]. exfalso. apply Hc. split; assumption. }
      destruct (IH (S i)) as [(k & Hk & Hck & Hmin & Hres) | [Hnone Hres]]; [lia | |].
      * left. exists k. split; [lia |]. split; [exact Hck |]. split; [| exact Hres].
        intros j Hj. destruct (Nat.eq_dec j i) as [-> | Hji]; [exact Hc |].
        apply Hmin. lia.
      * right. split; [| exact Hres].
        intros j Hj. destruct (Nat.eq_dec j i) as [-> | Hji]; [exact Hc |].
        apply Hnone. lia.
Qed.

Lemma scan_first_hit k :
  first_candidate target pid pass k ->
  scan_first target pid pass body miss (length pid) 0 = body k.
Proof.
  intros [Hc Hmin].
  destruct (scan_first_cases (length pid) 0) as [(k' & _ & Hck & Hmin' & Hres) | [Hnone _]];
    [lia | |].
  - destruct (Nat.lt_trichotomy k k') as [Hlt | [-> | Hgt]].
    + exfalso. apply (Hmin' k); [lia | exact Hc].
    + exact Hres.
    + exfalso. apply (Hmin k'); [lia | exact Hck].
  - exfalso. apply (Hnone k); [lia | exact Hc].
Qed.

Lemma scan_first_miss :
  (forall j, ~ candidate target pid pass j) ->
  scan_first target pid pass body miss (length pid) 0 = Some miss.
Proof.
  intros Hnone.
  destruct (scan_first_cases (length pid) 0) as [(k & _ & Hck & _) | [_ Hres]];
    [lia | | exact Hres].
  exfalso. exact (Hnone k Hck).
Qed.

Lemma first_candidate_dec_scan :
  (exists k, first_candidate target pid pass k) \/
  (forall j, ~ candidate target pid pass j).
Proof.
  destruct (scan_first_cases (length pid) 0) as [(k & _ & Hck & Hmin & _) | [Hnone _]];
    [lia | |].
  - left. exists k. split; [exact Hck |]. intros j Hj. apply Hmin. lia.
  - right. intros j. apply Hnone. lia.
Qed.
End ScanFirst.

(** Either some good particle of the species comes first, or none exists. *)
Lemma first_candidate_dec target pid pass :
  length pass = length pid ->
  (exists k, first_candidate target pid pass k) \/
  (forall j, ~ candidate target pid pass j).
Proof.
  intros Hlen.
  exact (first_candidate_dec_scan target pid pass (fun _ => Some tt) tt Hlen).
Qed.

Lemma pick_hit target pid v pass k x :
  length pass = length pid ->
  first_candidate target pid pass k -> v !! k = Some x ->
  pick target pid v pass = Some x.
Proof.
  intros Hlen Hk Hx. unfold pick.
  rewrite (scan_first_hit target pid pass _ _ Hlen k Hk). exact Hx.
Qed.

Lemma pick_miss target pid v pass :
  length pass = length pid ->
  (forall j, ~ candidate target pid pass j) ->
  pick target pid v pass = Some NOT_FOUND.
Proof. intros Hlen Hnone. unfold pick. now apply scan_first_miss. Qed.

Lemma pick_total target pid v pass :
  length pass = length pid -> length v = length pid ->
  exists x, pick target pid v pass = Some x.
Proof.
  intros Hlen Hv.
  destruct (first_candidate_dec target pid pass Hlen) as [[k Hk] | Hnone].
  - destruct (lookup_lt_is_Some_2 v k) as [x Hx].
    { destruct Hk as [[Hc _] _]. apply lookup_lt_Some in Hc. lia. }
    exists x. eapply pick_hit; eassumption.
  - exists NOT_FOUND. now apply pick_miss.
Qed.

Section Selection.
Variable ev : Event.
Hypothesis Hpar : parallel ev.

Lemma select_hit target k :
  first_candidate target (REC_Particle_pid ev) (REC_Particle_pass ev) k ->
  exists x y z,
    REC_Particle_px ev !! k = Some x /\ REC_Particle_py ev !! k = Some y /\
    REC_Particle_pz ev !! k = Some z /\ select ev target = Some (x, y, z).
Proof.
  intros Hk. destruct Hpar as (Hx & Hy & Hz & Hp & _).
  assert (k < length (REC_Particle_pid ev))%nat as Hlt.
  { destruct Hk as [[Hc _] _]. now apply lookup_lt_Some in Hc. }
  destruct (lookup_lt_is_Some_2 (REC_Particle_px ev) k) as [x Ex]; [lia |].
  destruct (lookup_lt_is_Some_2 (REC_Particle_py ev) k) as [y Ey]; [lia |].
  destruct (lookup_lt_is_Some_2 (REC_Particle_pz ev) k) as [z Ez]; [lia |].
  exists x, y, z. repeat (split; [assumption |]).
  unfold select.
  rewrite (pick_hit target _ _ _ k x Hp Hk Ex).
  rewrite (pick_hit target _ _ _ k y Hp Hk Ey).
  rewrite (pick_hit target _ _ _ k z Hp Hk Ez).
  reflexivity.
Qed.

Lemma select_miss target :
  (forall j, ~ candidate target (REC_Particle_pid ev) (REC_Particle_pass ev) j) ->
  select ev target = Some (NOT_FOUND, NOT_FOUND, NOT_FOUND).
Proof.
  intros Hnone. destruct Hpar as (_ & _ & _ & Hp & _).
  unfold select. now rewrite !pick_miss.
Qed.
End Selection.

(** C2. On parallel columns, the selection of a species returns the momentum
    of the first particle, in array order, of that species with the pass
    flag set, and the sentinel triple when there is none; of two good K+ it
    returns the earlier one. *)
Theorem select_first_match (ev : Event) (target : Z) :
  parallel ev ->
  (forall i, first_candidate target (REC_Particle_pid ev) (REC_Particle_pass ev) i ->
     exists x y z,
       REC_Particle_px ev !! i = Some x /\ REC_Particle_py ev !! i = Some y /\
       REC_Particle_pz ev !! i = Some z /\ select ev target = Some (x, y, z)) /\
  ((forall i, ~ candidate target (REC_Particle_pid ev) (REC_Particle_pass ev) i) ->
     select ev target = Some (-999, -999, -999)) /\
  (forall i j, (i < j)%nat ->
     candidate 321 (REC_Particle_pid ev) (REC_Particle_pass ev) i ->
     candidate 321 (REC_Particle_pid ev) (REC_Particle_pass ev) j ->
     (forall l, (l < i)%nat ->
        ~ candidate 321 (REC_Particle_pid ev) (REC_Particle_pass ev) l) ->
     exists x y z,
       REC_Particle_px ev !! i = Some x /\ REC_Particle_py ev !! i = Some y /\
       REC_Particle_pz ev !! i = Some z /\ select ev 321 = Some (x, y, z)).
Proof.
  intros Hpar. split; [| split].
  - intros i Hi. now apply select_hit.
  - intros Hnone. now apply select_miss.
  - intros i j _ Hi _ Hmin. apply select_hit; [exact Hpar | split; assumption].
Qed.

Lemma two_kPlus_parallel : parallel two_kPlus.
Proof. repeat split. Defined.

Lemma two_kPlus_first :
  first_candidate 321 (REC_Particle_pid two_kPlus) (REC_Particle_pass two_kPlus) 1.
Proof.
  split; [split; reflexivity |].
  intros [| j] Hj [Hc _]; [discriminate Hc | lia].
Defined.

Lemma two_kPlus_lacks target :
  target <> 11%Z -> target <> 321%Z ->
  forall i, ~ candidate target (REC_Particle_pid two_kPlus)
                        (REC_Particle_pass two_kPlus) i.
Proof.
  intros N1 N2 i [Hc _].
  destruct i as [| [| [| i]]]; try discriminate Hc; injection Hc as Hc; congruence.
Defined.

Lemma select_first_match_witness :
  parallel two_kPlus /\
  candidate 321 (REC_Particle_pid two_kPlus) (REC_Particle_pass two_kPlus) 1 /\
  candidate 321 (REC_Particle_pid two_kPlus) (REC_Particle_pass two_kPlus) 2 /\
  select two_kPlus 321 = Some (2, 5, 8) /\
  select two_kPlus 2212 = Some (-999, -999, -999).
Proof.
  split; [exact two_kPlus_parallel |].
  split; [split; reflexivity |].
  split; [split; reflexivity |].
  split.
  - destruct (proj1 (select_first_match two_kPlus 321 two_kPlus_parallel)
                1%nat two_kPlus_first) as (x & y & z & Hx & Hy & Hz & Hsel).
    injection Hx as <-. injection Hy as <-. injection Hz as <-. exact Hsel.
  - apply (proj1 (proj2 (select_first_match two_kPlus 2212 two_kPlus_parallel))).
    apply two_kPlus_lacks; discriminate.
Defined.

(** ** The filter of the all-detected pipeline *)

Lemma found_lambda_true ex kmx kpx px :
  found_lambda ex kmx kpx px = true <->
  ex <> -999 /\ kmx <> -999 /\ kpx <> -999 /\ px <> -999.
Proof.
  unfold found_lambda. rewrite !andb_true_iff, !Rneqb_true. tauto.
Qed.

Lemma found_lambda_false ex kmx kpx px :
  found_lambda ex kmx kpx px = false <->
  ex = -999 \/ kmx = -999 \/ kpx = -999 \/ px = -999.
Proof.
  unfold found_lambda. rewrite !andb_false_iff, !Rneqb_false. tauto.
Qed.

(** C6, as the code has it: the filter reads the four selected px columns
    and drops the event exactly when one of them is -999.  An event with a
    species that has no good particle is dropped; an event with all four
    species found is kept when the px of each first good particle is not
    -999. *)
Theorem InitKinematics_Filter_keeps (ev : Event) :
  parallel ev ->
  (exists ex kmx kpx px,
     ele_px ev = Some ex /\ kMinus_px ev = Some kmx /\
     kPlus_px ev = Some kpx /\ pro_px ev = Some px /\
     (InitKinematics_Filter ev = Some false <->
      ex = -999 \/ kmx = -999 \/ kpx = -999 \/ px = -999) /\
     (InitKinematics_Filter ev = Some true <->
      ex <> -999 /\ kmx <> -999 /\ kpx <> -999 /\ px <> -999)) /\
  (forall target, In target [11; -321; 321; 2212]%Z ->
     (forall i, ~ candidate target (REC_Particle_pid ev) (REC_Particle_pass ev) i) ->
     InitKinematics_Filter ev = Some false) /\
  (forall ie ikm ikp ip xe xkm xkp xp,
     first_candidate 11 (REC_Particle_pid ev) (REC_Particle_pass ev) ie ->
     first_candidate (-321) (REC_Particle_pid ev) (REC_Particle_pass ev) ikm ->
     first_candidate 321 (REC_Particle_pid ev) (REC_Particle_pass ev) ikp ->
     first_candidate 2212 (REC_Particle_pid ev) (REC_Particle_pass ev) ip ->
     REC_Particle_px ev !! ie = Some xe -> REC_Particle_px ev !! ikm = Some xkm ->
     REC_Particle_px ev !! ikp = Some xkp -> REC_Particle_px ev !! ip = Some xp ->
     xe <> -999 -> xkm <> -999 -> xkp <> -999 -> xp <> -999 ->
     InitKinematics_Filter ev = Some true).
Proof.
  intros (Hx & _ & _ & Hp & _).
  destruct (pick_total 11 _ _ _ Hp Hx) as [ex Hex].
  destruct (pick_total (-321) _ _ _ Hp Hx) as [kmx Hkmx].
  destruct (pick_total 321 _ _ _ Hp Hx) as [kpx Hkpx].
  destruct (pick_total 2212 _ _ _ Hp Hx) as [px Hpx].
  assert (InitKinematics_Filter ev = Some (found_lambda ex kmx kpx px)) as Hf.
  { unfold InitKinematics_Filter, ele_px, kMinus_px, kPlus_px, pro_px.
    now rewrite Hex, Hkmx, Hkpx, Hpx. }
  split; [| split].
  - exists ex, kmx, kpx, px. repeat (split; [assumption |]).
    rewrite Hf. split.
    + rewrite <- found_lambda_false. split; congruence.
    + rewrite <- found_lambda_true. split; congruence.
  - intros target Hin Hnone.
    pose proof (pick_miss target _ (REC_Particle_px ev) _ Hp Hnone) as Hmiss.
    rewrite Hf. f_equal. apply found_lambda_false. unfold NOT_FOUND in Hmiss.
    simpl in Hin. destruct Hin as [<- | [<- | [<- | [<- | []]]]].
    + left. congruence.
    + right; left. congruence.
    + right; right; left. congruence.
    + right; right; right. congruence.
  - intros ie ikm ikp ip xe xkm xkp xp He Hkm Hkp Hpr Ee Ekm Ekp Epr Ne Nkm Nkp Npr.
    rewrite Hf. f_equal. apply found_lambda_true.
    rewrite (pick_hit _ _ _ _ _ _ Hp He Ee) in Hex.
    rewrite (pick_hit _ _ _ _ _ _ Hp Hkm Ekm) in Hkmx.
    rewrite (pick_hit _ _ _ _ _ _ Hp Hkp Ekp) in Hkpx.
    rewrite (pick_hit _ _ _ _ _ _ Hp Hpr Epr) in Hpx.
    repeat split; congruence.
Qed.

Lemma four_detected_parallel : parallel four_detected.
Proof. repeat split. Defined.

Lemma four_detected_first target k :
  (REC_Particle_pid four_detected) !! k = Some target ->
  first_candidate target (REC_Particle_pid four_detected)
                  (REC_Particle_pass four_detected) k.
Proof.
  intros Hk. destruct k as [| [| [| [| k]]]]; try discriminate Hk;
    injection Hk as <-; (split; [split; reflexivity |]);
    intros j Hj [Hc _];
    (destruct j as [| [| [| [| j]]]]; try discriminate Hc; lia).
Defined.

Lemma InitKinematics_Filter_keeps_witness :
  (parallel four_detected /\ InitKinematics_Filter four_detected = Some true) /\
  (parallel two_kPlus /\ InitKinematics_Filter two_kPlus = Some false).
Proof.
  split.
  - split; [exact four_detected_parallel |].
    refine (proj2 (proj2 (InitKinematics_Filter_keeps four_detected four_detected_parallel))
              0%nat 1%nat 2%nat 3%nat 1 1 1 1 _ _ _ _ _ _ _ _ _ _ _ _);
      try (apply four_detected_first; reflexivity); try reflexivity; lra.
  - split; [exact two_kPlus_parallel |].
    apply (proj1 (proj2 (InitKinematics_Filter_keeps two_kPlus two_kPlus_parallel))
             (-321)%Z).
    + right; left; reflexivity.
    + apply two_kPlus_lacks; discriminate.
Defined.

(** C6, as the claim has it, fails on an event in which all four species
    are found and the electron's px is -999: no selection returns the
    sentinel triple, yet the filter drops the event. *)
Lemma sentinel_px_is_dropped :
  parallel electron_at_sentinel /\
  (forall target, In target [11; -321; 321; 2212]%Z ->
     (exists i, candidate target (REC_Particle_pid electron_at_sentinel)
                          (REC_Particle_pass electron_at_sentinel) i) /\
     select electron_at_sentinel target <> Some (-999, -999, -999)) /\
  InitKinematics_Filter electron_at_sentinel = Some false.
Proof.
  split; [repeat split |]. split.
  - intros target Hin. simpl in Hin.
    destruct Hin as [<- | [<- | [<- | [<- | []]]]].
    + split; [exists 0%nat; split; reflexivity |].
      intros H; injection H; intros; lra.
    + split; [exists 1%nat; split; reflexivity |].
      intros H; injection H; intros; lra.
    + split; [exists 2%nat; split; reflexivity |].
      intros H; injection H; intros; lra.
    + split; [exists 3%nat; split; reflexivity |].
      intros H; injection H; intros; lra.
  - unfold InitKinematics_Filter. simpl. f_equal.
    apply found_lambda_false. left. reflexivity.
Qed.

(** ** Detector regions *)

Lemma region_of_ranges st :
  let a := Z.abs st in
  ((1000 <= a < 2000)%Z -> region_of st = 0%Z) /\
  ((2000 <= a < 3000)%Z -> region_of st = 1%Z) /\
  ((4000 <= a < 5000)%Z -> region_of st = 2%Z) /\
  ((a < 1000 \/ 3000 <= a < 4000 \/ 5000 <= a)%Z -> region_of st = (-1)%Z).
Proof.
  intros a. unfold region_of. fold a.
  repeat split; intros Ha;
    repeat match goal with
           | |- context [Z.leb ?x ?y] => destruct (Z.leb_spec x y)
           | |- context [Z.ltb ?x ?y] => destruct (Z.ltb_spec x y)
           end; simpl; lia.
Qed.

Lemma det_region_column target col ev :
  In (target, col) det_region_columns ->
  col ev = det_region target (REC_Particle_pid ev) (REC_Particle_status ev)
                      (REC_Particle_pass ev).
Proof.
  intros Hin. simpl in Hin.
  destruct Hin as [H | [H | [H | [H | []]]]]; injection H as <- <-; reflexivity.
Qed.

(** C8. For each of the four species, the region column classifies the
    absolute status of the first good particle of the species: [1000, 2000)
    is 0, [2000, 3000) is 1, [4000, 5000) is 2, every other value is -1, and
    the column is -1 when the species has no good particle. *)
Theorem det_region_classification (ev : Event) (target : Z) (col : Event -> ub Z) :
  parallel ev ->
  In (target, col) det_region_columns ->
  (forall i st,
     first_candidate target (REC_Particle_pid ev) (REC_Particle_pass ev) i ->
     REC_Particle_status ev !! i = Some st ->
     exists r, col ev = Some r /\
       ((1000 <= Z.abs st < 2000)%Z -> r = 0%Z) /\
       ((2000 <= Z.abs st < 3000)%Z -> r = 1%Z) /\
       ((4000 <= Z.abs st < 5000)%Z -> r = 2%Z) /\
       ((Z.abs st < 1000 \/ 3000 <= Z.abs st < 4000 \/ 5000 <= Z.abs st)%Z ->
        r = (-1)%Z)) /\
  ((forall i, ~ candidate target (REC_Particle_pid ev) (REC_Particle_pass ev) i) ->
   col ev = Some (-1)%Z).
Proof.
  intros (_ & _ & _ & Hp & _) Hin.
  rewrite (det_region_column _ _ ev Hin). unfold det_region. split.
  - intros i st Hi Hst. exists (region_of st). split.
    + rewrite (scan_first_hit _ _ _ _ _ Hp i Hi). now rewrite Hst.
    + apply region_of_ranges.
  - intros Hnone. now apply scan_first_miss.
Qed.

Lemma det_region_classification_witness :
  parallel four_detected /\
  ele_det_region four_detected = Some 1%Z /\
  kPlus_det_region four_detected = Some (-1)%Z /\
  pro_det_region two_kPlus = Some (-1)%Z.
Proof.
  split; [exact four_detected_parallel |]. split; [| split].
  - destruct (proj1 (det_region_classification four_detected 11 ele_det_region
                       four_detected_parallel (or_introl eq_refl))
                0%nat (-2100)%Z (four_detected_first 11 0 eq_refl) eq_refl)
      as (r & Hr & _ & H1 & _).
    rewrite Hr. f_equal. apply H1. simpl. lia.
  - destruct (proj1 (det_region_classification four_detected 321 kPlus_det_region
                       four_detected_parallel
                       (or_intror (or_intror (or_introl eq_refl))))
                2%nat 3300%Z (four_detected_first 321 2 eq_refl) eq_refl)
      as (r & Hr & _ & _ & _ & H3).
    rewrite Hr. f_equal. apply H3. simpl. lia.
  - apply (proj2 (det_region_classification two_kPlus 2212 pro_det_region
                    two_kPlus_parallel
                    (or_intror (or_intror (or_intror (or_introl eq_refl)))))).
    apply two_kPlus_lacks; discriminate.
Defined.

(** ** Counting loops *)

Lemma count_good_drop k pid pass i id ok :
  pid !! i = Some id -> pass !! i = Some ok ->
  count_good k (drop i pid) (drop i pass) =
  ((if ok && (id =? k)%Z then 1 else 0)
   + count_good k (drop (S i) pid) (drop (S i) pass))%Z.
Proof.
  intros Hid Hok. rewrite (drop_S _ _ _ Hid), (drop_S _ _ _ Hok). reflexivity.
Qed.

Lemma count_good_end k pid pass i :
  (length pid <= i)%nat -> count_good k (drop i pid) (drop i pass) = 0%Z.
Proof. intros Hlen. now rewrite (drop_ge pid i Hlen). Qed.

Lemma count_good_bounded k pid pass :
  (0 <= count_good k pid pass <= Z.of_nat (length pid))%Z.
Proof.
  revert pass. induction pid as [| id pid IH]; intros [| ok pass]; simpl; try lia.
  specialize (IH pass). destruct (ok && (id =? k)%Z); lia.
Qed.

Section Counting.
Variables (pid : list Z) (pass : list bool).
Hypothesis pass_parallel : length pass = length pid.

Lemma phi_loop_counts n i s :
  (i + n = length pid)%nat ->
  phi_loop pid pass n i s =
  Some (mkPhiLocals (n_e s + good_from 11 pid pass i) (n_km s + good_from (-321) pid pass i)
                    (n_kp s + good_from 321 pid pass i) (n_p s + good_from 2212 pid pass i)
                    (hasPhiDaughter s)).
Proof.
  unfold good_from. revert i s. induction n as [| n IH]; intros i s Hlen.
  - simpl. rewrite !count_good_end by lia. rewrite !Z.add_0_r. now destruct s.
  - destruct (lookup_lt_is_Some_2 pid i) as [id Hid]; [lia |].
    destruct (lookup_lt_is_Some_2 pass i) as [ok Hok]; [lia |].
    rewrite !(count_good_drop _ _ _ _ _ _ Hid Hok).
    simpl phi_loop. rewrite Hok, Hid.
    destruct ok; simpl negb; cbv iota.
    + destruct (Z.eqb_spec id 11) as [-> | N1]; [rewrite IH by lia; simpl; f_equal; f_equal; lia |].
      destruct (Z.eqb_spec id 321) as [-> | N2]; [rewrite IH by lia; simpl; f_equal; f_equal; lia |].
      destruct (Z.eqb_spec id (-321)) as [-> | N3]; [rewrite IH by lia; simpl; f_equal; f_equal; lia |].
      destruct (Z.eqb_spec id 2212) as [-> | N4]; rewrite IH by lia; simpl; f_equal; f_equal; lia.
    + rewrite IH by lia. simpl. reflexivity.
Qed.

Lemma SelectExclusivePhiEvent_counts daughterPass :
  SelectExclusivePhiEvent pid pass daughterPass =
  Some ((count_good 11 pid pass =? 1)%Z && (1 <=? count_good 321 pid pass)%Z
        && (1 <=? count_good (-321) pid pass)%Z
        && (1 <=? count_good 2212 pid pass)%Z).
Proof.
  unfold SelectExclusivePhiEvent. rewrite phi_loop_counts by lia.
  unfold good_from. simpl. now rewrite andb_true_r.
Qed.

(** The counters stay within the number of loop iterations. *)
Lemma phi_counts_bounded :
  exists s, phi_loop pid pass (length pid) 0 (mkPhiLocals 0 0 0 0 true) = Some s /\
    (0 <= n_e s <= Z.of_nat (length pid))%Z /\
    (0 <= n_km s <= Z.of_nat (length pid))%Z /\
    (0 <= n_kp s <= Z.of_nat (length pid))%Z /\
    (0 <= n_p s <= Z.of_nat (length pid))%Z.
Proof.
  eexists. split; [apply phi_loop_counts; lia |].
  unfold good_from. simpl. repeat split; apply count_good_bounded.
Qed.

Variable daughterPass : list bool.
Hypothesis daughter_parallel : length daughterPass = length pid.

Lemma pi0_loop_flagged n i e g p k :
  (i + n = length pid)%nat -> (i <= k)%nat ->
  pass !! k = Some true -> daughterPass !! k = Some true ->
  pi0_loop pid pass daughterPass n i e g p = Some false.
Proof.
  revert i e g p. induction n as [| n IH]; intros i e g p Hlen Hik Hk Hd.
  - apply lookup_lt_Some in Hk. lia.
  - destruct (lookup_lt_is_Some_2 pid i) as [id Hid]; [lia |].
    destruct (lookup_lt_is_Some_2 pass i) as [ok Hok]; [lia |].
    destruct (lookup_lt_is_Some_2 daughterPass i) as [d Hdi]; [lia |].
    simpl. rewrite Hok. destruct ok; simpl.
    + rewrite Hdi. destruct d; [reflexivity |].
      assert (i <> k) by congruence.
      rewrite Hid.
      destruct (id =? 11)%Z; [apply IH; (lia || assumption) |].
      destruct (id =? 22)%Z; [apply IH; (lia || assumption) |].
      destruct (id =? 2212)%Z; apply IH; (lia || assumption).
    + assert (i <> k) by congruence. apply IH; (lia || assumption).
Qed.

Lemma pi0_loop_clean n i e g p :
  (i + n = length pid)%nat ->
  (forall j, (i <= j)%nat ->
     ~ (pass !! j = Some true /\ daughterPass !! j = Some true)) ->
  pi0_loop pid pass daughterPass n i e g p =
  Some ((e + good_from 11 pid pass i =? 1)%Z && (g + good_from 22 pid pass i =? 1)%Z
        && (p + good_from 2212 pid pass i =? 1)%Z).
Proof.
  unfold good_from. revert i e g p.
  induction n as [| n IH]; intros i e g p Hlen Hclean.
  - simpl. rewrite !count_good_end by lia. now rewrite !Z.add_0_r.
  - destruct (lookup_lt_is_Some_2 pid i) as [id Hid]; [lia |].
    destruct (lookup_lt_is_Some_2 pass i) as [ok Hok]; [lia |].
    destruct (lookup_lt_is_Some_2 daughterPass i) as [d Hdi]; [lia |].
    assert (forall j, (S i <= j)%nat ->
              ~ (pass !! j = Some true /\ daughterPass !! j = Some true)) as Hclean'
      by (intros j Hj; apply Hclean; lia).
    rewrite !(count_good_drop _ _ _ _ _ _ Hid Hok).
    simpl pi0_loop. rewrite Hok.
    destruct ok; simpl negb; cbv iota.
    + rewrite Hdi. destruct d.
      { exfalso. apply (Hclean i); [lia | split; assumption]. }
      rewrite Hid.
      destruct (Z.eqb_spec id 11) as [-> | N1];
        [rewrite IH by (lia || assumption); simpl; now rewrite ?Z.add_0_l, ?Z.add_assoc |].
      destruct (Z.eqb_spec id 22) as [-> | N2];
        [rewrite IH by (lia || assumption); simpl; now rewrite ?Z.add_0_l, ?Z.add_assoc |].
      destruct (Z.eqb_spec id 2212) as [-> | N3];
        rewrite IH by (lia || assumption); simpl; now rewrite ?Z.add_0_l, ?Z.add_assoc.
    + rewrite IH by (lia || assumption). simpl. reflexivity.
Qed.
End Counting.

(** ** Event selection cuts *)

(** C3. The exclusive-phi cut keeps an event exactly when, among the good
    particles, there is one electron and at least one K+, one K- and one
    proton; the verdict is the same for every daughter-flag array. *)
Theorem SelectExclusivePhiEvent_accepts (pid : list Z) (pass daughterPass : list bool) :
  length pass = length pid ->
  exists verdict,
    SelectExclusivePhiEvent pid pass daughterPass = Some verdict /\
    (verdict = true <->
     count_good 11 pid pass = 1%Z /\ (1 <= count_good 321 pid pass)%Z /\
     (1 <= count_good (-321) pid pass)%Z /\ (1 <= count_good 2212 pid pass)%Z) /\
    (forall daughterPass' : list bool,
       SelectExclusivePhiEvent pid pass daughterPass' = Some verdict).
Proof.
  intros Hlen. eexists. split; [now apply SelectExclusivePhiEvent_counts |]. split.
  - rewrite !andb_true_iff, Z.eqb_eq, !Z.leb_le. tauto.
  - intros daughterPass'. now apply SelectExclusivePhiEvent_counts.
Qed.

Lemma SelectExclusivePhiEvent_accepts_witness :
  length (REC_Particle_pass four_detected) = length (REC_Particle_pid four_detected) /\
  SelectExclusivePhiEvent (REC_Particle_pid four_detected)
    (REC_Particle_pass four_detected)
    (REC_DaughterParticle_pass four_detected) = Some true /\
  SelectExclusivePhiEvent (REC_Particle_pid four_detected)
    (REC_Particle_pass four_detected) [true; true; true; true] = Some true.
Proof.
  split; [reflexivity |].
  destruct (SelectExclusivePhiEvent_accepts (REC_Particle_pid four_detected)
              (REC_Particle_pass four_detected)
              (REC_DaughterParticle_pass four_detected) eq_refl)
    as (verdict & Hv & Hiff & Hany).
  assert (verdict = true) as ->.
  { apply Hiff. simpl. lia. }
  split; [exact Hv | apply Hany].
Defined.

(** C7. The pi0 rejection returns false when a good particle carries the
    daughter flag; when none does, it returns true exactly when the good
    particles hold one electron, one photon and one proton. *)
Theorem RejectPi0TwoPhoton_verdict (pid : list Z) (pass daughterPass : list bool) :
  length pass = length pid ->
  length daughterPass = length pid ->
  (flagged pass daughterPass ->
   RejectPi0TwoPhoton pid pass daughterPass = Some false) /\
  (~ flagged pass daughterPass ->
   exists verdict,
     RejectPi0TwoPhoton pid pass daughterPass = Some verdict /\
     (verdict = true <->
      count_good 11 pid pass = 1%Z /\ count_good 22 pid pass = 1%Z /\
      count_good 2212 pid pass = 1%Z)).
Proof.
  intros Hp Hd. split.
  - intros (k & Hk & Hdk). unfold RejectPi0TwoPhoton.
    apply (pi0_loop_flagged pid pass Hp daughterPass Hd _ _ _ _ _ k); (lia || assumption).
  - intros Hclean. eexists. split.
    + unfold RejectPi0TwoPhoton. apply (pi0_loop_clean pid pass Hp daughterPass Hd); [lia |].
      intros j _ Hj. apply Hclean. now exists j.
    + simpl. rewrite !andb_true_iff, !Z.eqb_eq. tauto.
Qed.

Lemma pi0_photon_flagged :
  flagged (REC_Particle_pass pi0_photon) (REC_DaughterParticle_pass pi0_photon).
Proof. exists 1%nat. split; reflexivity. Defined.

Lemma single_photon_clean :
  ~ flagged (REC_Particle_pass single_photon) (REC_DaughterParticle_pass single_photon).
Proof.
  intros (k & _ & Hd). destruct k as [| [| [| k]]]; discriminate Hd.
Defined.

Lemma RejectPi0TwoPhoton_verdict_witness :
  RejectPi0TwoPhoton (REC_Particle_pid pi0_photon) (REC_Particle_pass pi0_photon)
    (REC_DaughterParticle_pass pi0_photon) = Some false /\
  RejectPi0TwoPhoton (REC_Particle_pid single_photon) (REC_Particle_pass single_photon)
    (REC_DaughterParticle_pass single_photon) = Some true.
Proof.
  split.
  - exact (proj1 (RejectPi0TwoPhoton_verdict (REC_Particle_pid pi0_photon)
                    (REC_Particle_pass pi0_photon)
                    (REC_DaughterParticle_pass pi0_photon) eq_refl eq_refl)
                 pi0_photon_flagged).
  - destruct (proj2 (RejectPi0TwoPhoton_verdict (REC_Particle_pid single_photon)
                       (REC_Particle_pass single_photon)
                       (REC_DaughterParticle_pass single_photon) eq_refl eq_refl)
                    single_photon_clean) as (verdict & Hv & Hiff).
    assert (verdict = true) as -> by (apply Hiff; simpl; lia).
    exact Hv.
Defined.

(** * Further properties of the helpers *)

(** ** Magnitude *)


(** ** Angles depend on the direction only *)




(** ** The azimuthal half planes *)



(** ** From the angles back to the components *)







(** ** The polar hemispheres *)



(** ** Square-root alias *)

(** X6. [Mx_epKm_forCut] always returns a value: the sentinel -999 when the
    squared mass is not positive, and otherwise a positive number whose
    square is the squared mass; so the alias is positive exactly for a
    positive squared mass. *)
Theorem Mx_epKm_forCut_sign (Mx2_epKm : R) :
  exists m, Mx_epKm_forCut (Mx2_epKm_forCut Mx2_epKm) = Some m /\
    ((Mx2_epKm <= 0 /\ m = -999) \/ (0 < Mx2_epKm /\ 0 < m /\ m * m = Mx2_epKm)) /\
    (0 < m <-> 0 < Mx2_epKm).
Proof.
  unfold Mx_epKm_forCut, Mx2_epKm_forCut.
  destruct (Rlt_dec 0 Mx2_epKm) as [Hv | Hv].
  - exists (sqrt Mx2_epKm). rewrite fp_sqrt_nonneg by lra.
    pose proof (sqrt_lt_R0 _ Hv). pose proof (sqrt_sqrt Mx2_epKm).
    split; [reflexivity |]. split; [right; repeat split; lra | split; intros; lra].
  - exists (-999). split; [reflexivity |].
    split; [left; split; lra | split; intros; lra].
Qed.

(** ** Invariant mass of the kaon pair *)

Lemma energies_dominate_dot_strong x1 y1 z1 x2 y2 z2 m :
  x1 * x2 + y1 * y2 + z1 * z2 + m * m <=
  sqrt (x1 * x1 + y1 * y1 + z1 * z1 + m * m) *
  sqrt (x2 * x2 + y2 * y2 + z2 * z2 + m * m).
Proof.
  set (s1 := x1 * x1 + y1 * y1 + z1 * z1 + m * m).
  set (s2 := x2 * x2 + y2 * y2 + z2 * z2 + m * m).
  set (d := x1 * x2 + y1 * y2 + z1 * z2 + m * m).
  assert (0 <= s1) as H1 by (subst s1; nra).
  assert (0 <= s2) as H2 by (subst s2; nra).
  rewrite <- sqrt_mult by assumption.
  destruct (Rle_dec d 0) as [Hd | Hd].
  - pose proof (sqrt_pos (s1 * s2)). lra.
  - rewrite <- (sqrt_Rsqr d) by lra.
    apply sqrt_le_1_alt. unfold Rsqr. subst s1 s2 d.
    pose proof (Rle_0_sqr (x1 * y2 - x2 * y1)) as Ha.
    pose proof (Rle_0_sqr (x1 * z2 - x2 * z1)) as Hb.
    pose proof (Rle_0_sqr (y1 * z2 - y2 * z1)) as Hc.
    pose proof (Rle_0_sqr (m * (x1 - x2))) as Hx.
    pose proof (Rle_0_sqr (m * (y1 - y2))) as Hy.
    pose proof (Rle_0_sqr (m * (z1 - z2))) as Hz.
    unfold Rsqr in *. nra.
Qed.

(** X7. The pair mass is symmetric in the two kaons and never below the
    threshold [2 mK]; two kaons with the same momentum sit at threshold. *)
Theorem invMass_KpKm_threshold (px1 py1 pz1 px2 py2 pz2 : R) :
  exists m, invMass_KpKm px1 py1 pz1 px2 py2 pz2 = Some m /\
    2 * kMK <= m /\
    invMass_KpKm px2 py2 pz2 px1 py1 pz1 = Some m /\
    invMass_KpKm px1 py1 pz1 px1 py1 pz1 = Some (2 * kMK).
Proof.
  assert (0 < kMK) as HmK by (unfold kMK; lra).
  assert (forall a1 b1 c1 a2 b2 c2, invMass_KpKm a1 b1 c1 a2 b2 c2 =
            Some (sqrt ((sqrt (a1 * a1 + b1 * b1 + c1 * c1 + kMK * kMK)
                         + sqrt (a2 * a2 + b2 * b2 + c2 * c2 + kMK * kMK))
                        * (sqrt (a1 * a1 + b1 * b1 + c1 * c1 + kMK * kMK)
                           + sqrt (a2 * a2 + b2 * b2 + c2 * c2 + kMK * kMK))
                        - ((a1 + a2) * (a1 + a2) + (b1 + b2) * (b1 + b2)
                           + (c1 + c2) * (c1 + c2))))) as Hval.
  { intros. unfold invMass_KpKm.
    rewrite !fp_sqrt_nonneg by auto with fpdb.
    now rewrite fp_sqrt_nonneg by apply invMass_argument_nonneg. }
  eexists. split; [apply Hval |].
  set (E1 := sqrt (px1 * px1 + py1 * py1 + pz1 * pz1 + kMK * kMK)).
  set (E2 := sqrt (px2 * px2 + py2 * py2 + pz2 * pz2 + kMK * kMK)).
  assert (E1 * E1 = px1 * px1 + py1 * py1 + pz1 * pz1 + kMK * kMK) as HE1
    by (apply sqrt_sqrt, shell_nonneg).
  assert (E2 * E2 = px2 * px2 + py2 * py2 + pz2 * pz2 + kMK * kMK) as HE2
    by (apply sqrt_sqrt, shell_nonneg).
  split; [| split].
  - rewrite <- (sqrt_square (2 * kMK)) at 1 by lra.
    apply sqrt_le_1_alt.
    pose proof (energies_dominate_dot_strong px1 py1 pz1 px2 py2 pz2 kMK) as Hcs.
    fold E1 E2 in Hcs. nra.
  - rewrite Hval. fold E1 E2. do 2 f_equal. ring.
  - rewrite Hval. fold E1. f_equal.
    rewrite <- (sqrt_square (2 * kMK)) by lra. f_equal. nra.
Qed.

(** * Further properties of the cuts and the selection *)

(** ** The missing-K- topology cut *)

Lemma missKm_loop_counts pid pass n i e kp p :
  length pass = length pid ->
  (i + n = length pid)%nat ->
  missKm_loop pid pass n i e kp p =
  Some ((e + good_from 11 pid pass i =? 1)%Z
        && (1 <=? kp + good_from 321 pid pass i)%Z
        && (1 <=? p + good_from 2212 pid pass i)%Z).
Proof.
  intros Hpar. unfold good_from. revert i e kp p.
  induction n as [| n IH]; intros i e kp p Hlen.
  - simpl. rewrite !count_good_end by lia. now rewrite !Z.add_0_r.
  - destruct (lookup_lt_is_Some_2 pid i) as [id Hid]; [lia |].
    destruct (lookup_lt_is_Some_2 pass i) as [ok Hok]; [lia |].
    rewrite !(count_good_drop _ _ _ _ _ _ Hid Hok).
    simpl missKm_loop. rewrite Hok.
    destruct ok; simpl negb; cbv iota.
    + rewrite Hid.
      destruct (Z.eqb_spec id 11) as [-> | N1];
        [rewrite IH by lia; simpl; now rewrite ?Z.add_0_l, ?Z.add_assoc |].
      destruct (Z.eqb_spec id 321) as [-> | N2];
        [rewrite IH by lia; simpl; now rewrite ?Z.add_0_l, ?Z.add_assoc |].
      destruct (Z.eqb_spec id 2212) as [-> | N3];
        rewrite IH by lia; simpl; now rewrite ?Z.add_0_l, ?Z.add_assoc.
    + rewrite IH by lia. simpl. reflexivity.
Qed.

Lemma SelectPhiEvent_MissingKm_counts pid pass :
  length pass = length pid ->
  SelectPhiEvent_MissingKm pid pass =
  Some ((count_good 11 pid pass =? 1)%Z && (1 <=? count_good 321 pid pass)%Z
        && (1 <=? count_good 2212 pid pass)%Z).
Proof.
  intros Hpar. unfold SelectPhiEvent_MissingKm.
  rewrite missKm_loop_counts by (assumption || lia). reflexivity.
Qed.

(** X8. The missing-K- cut keeps an event exactly when the good particles
    hold one electron, at least one K+ and at least one proton, whatever
    the number of K-; every event kept by the exclusive-phi cut is kept by
    it too. *)
Theorem SelectPhiEvent_MissingKm_accepts (pid : list Z) (pass : list bool) :
  length pass = length pid ->
  exists verdict,
    SelectPhiEvent_MissingKm pid pass = Some verdict /\
    (verdict = true <->
     count_good 11 pid pass = 1%Z /\ (1 <= count_good 321 pid pass)%Z /\
     (1 <= count_good 2212 pid pass)%Z) /\
    (forall daughterPass,
       SelectExclusivePhiEvent pid pass daughterPass = Some true -> verdict = true).
Proof.
  intros Hpar. eexists. split; [now apply SelectPhiEvent_MissingKm_counts |]. split.
  - rewrite !andb_true_iff, Z.eqb_eq, !Z.leb_le. tauto.
  - intros daughterPass Hex.
    rewrite (SelectExclusivePhiEvent_counts pid pass Hpar) in Hex.
    injection Hex as Hex. rewrite !andb_true_iff in Hex. rewrite !andb_true_iff. tauto.
Qed.

Lemma SelectPhiEvent_MissingKm_accepts_witness :
  length (REC_Particle_pass two_kPlus) = length (REC_Particle_pid two_kPlus) /\
  SelectPhiEvent_MissingKm (REC_Particle_pid two_kPlus) (REC_Particle_pass two_kPlus)
  = Some false /\
  SelectPhiEvent_MissingKm (REC_Particle_pid four_detected)
    (REC_Particle_pass four_detected) = Some true.
Proof.
  split; [reflexivity |]. split.
  - destruct (SelectPhiEvent_MissingKm_accepts (REC_Particle_pid two_kPlus)
                (REC_Particle_pass two_kPlus) eq_refl) as (verdict & Hv & Hiff & _).
    rewrite Hv. f_equal. destruct verdict; [| reflexivity].
    destruct (proj1 Hiff eq_refl) as (_ & _ & Hp). simpl in Hp. lia.
  - destruct (SelectPhiEvent_MissingKm_accepts (REC_Particle_pid four_detected)
                (REC_Particle_pass four_detected) eq_refl) as (verdict & Hv & Hiff & _).
    rewrite Hv. f_equal. apply Hiff. simpl. lia.
Defined.

(** ** Counts and candidates *)

Lemma count_good_pos_iff k pid pass :
  (1 <= count_good k pid pass)%Z <-> exists i, candidate k pid pass i.
Proof.
  revert pass. induction pid as [| id pid IH]; intros pass.
  - simpl. split; [lia | intros (i & Hc & _); destruct i; discriminate Hc].
  - destruct pass as [| ok pass].
    + simpl. split; [lia | intros (i & _ & Hc); destruct i; discriminate Hc].
    + simpl. pose proof (count_good_bounded k pid pass) as Hb. split.
      * intros Hcnt.
        destruct ok; [destruct (Z.eqb_spec id k) as [-> | Hne] |]; simpl in Hcnt.
        -- exists 0%nat. split; reflexivity.
        -- destruct (proj1 (IH pass)) as (i & Hi1 & Hi2); [lia |].
           exists (S i). split; assumption.
        -- destruct (proj1 (IH pass)) as (i & Hi1 & Hi2); [lia |].
           exists (S i). split; assumption.
      * intros ([| i] & Hc1 & Hc2).
        -- injection Hc1 as ->. injection Hc2 as ->. rewrite Z.eqb_refl. simpl. lia.
        -- assert (1 <= count_good k pid pass)%Z
             by (apply IH; exists i; split; assumption).
           destruct (ok && (id =? k)%Z); lia.
Qed.

Lemma count_good_one_unique k pid pass i j :
  count_good k pid pass = 1%Z ->
  candidate k pid pass i -> candidate k pid pass j -> i = j.
Proof.
  revert pass i j. induction pid as [| id pid IH]; intros pass i j Hcnt Hi Hj.
  - destruct Hi as [Hc _]. destruct i; discriminate Hc.
  - destruct pass as [| ok pass]; [destruct Hi as [_ Hc]; destruct i; discriminate Hc |].
    simpl in Hcnt.
    assert (forall l, candidate k (id :: pid) (ok :: pass) (S l) -> candidate k pid pass l)
      as Htail by (intros l [H1 H2]; split; assumption).
    assert (candidate k (id :: pid) (ok :: pass) 0 -> ok && (id =? k)%Z = true) as Hhead.
    { intros [H1 H2]. injection H1 as ->. injection H2 as ->. now rewrite Z.eqb_refl. }
    destruct (ok && (id =? k)%Z) eqn:Hm.
    + assert (forall l, ~ candidate k pid pass l) as Hnone.
      { intros l Hl. assert (1 <= count_good k pid pass)%Z
          by (apply count_good_pos_iff; now exists l). lia. }
      destruct i as [| i]; [| exfalso; exact (Hnone i (Htail i Hi))].
      destruct j as [| j]; [reflexivity | exfalso; exact (Hnone j (Htail j Hj))].
    + destruct i as [| i]; [apply Hhead in Hi; discriminate |].
      destruct j as [| j]; [apply Hhead in Hj; discriminate |].
      f_equal. apply (IH pass); [lia | apply Htail, Hi | apply Htail, Hj].
Qed.

Lemma candidate_has_first target pid pass i :
  length pass = length pid ->
  candidate target pid pass i -> exists k, first_candidate target pid pass k.
Proof.
  intros Hpar Hi.
  destruct (first_candidate_dec target pid pass Hpar) as [Hk | Hnone];
    [exact Hk | exfalso; exact (Hnone i Hi)].
Qed.

(** X9. In an event kept by the exclusive-phi cut every one of the four
    selections returns the momentum of a good particle of its species, and
    the good electron is the only one: first-match has nothing to choose
    for the electron. *)
Theorem exclusive_cut_selects_particles (ev : Event) :
  parallel ev ->
  SelectExclusivePhiEvent (REC_Particle_pid ev) (REC_Particle_pass ev)
    (REC_DaughterParticle_pass ev) = Some true ->
  (forall target, In target [11; -321; 321; 2212]%Z ->
     exists i x y z,
       first_candidate target (REC_Particle_pid ev) (REC_Particle_pass ev) i /\
       REC_Particle_px ev !! i = Some x /\ REC_Particle_py ev !! i = Some y /\
       REC_Particle_pz ev !! i = Some z /\ select ev target = Some (x, y, z)) /\
  (forall i j,
     candidate 11 (REC_Particle_pid ev) (REC_Particle_pass ev) i ->
     candidate 11 (REC_Particle_pid ev) (REC_Particle_pass ev) j -> i = j).
Proof.
  intros Hpar Hcut.
  pose proof Hpar as (_ & _ & _ & Hp & _).
  rewrite (SelectExclusivePhiEvent_counts _ _ Hp) in Hcut.
  injection Hcut as Hcut. rewrite !andb_true_iff, Z.eqb_eq, !Z.leb_le in Hcut.
  destruct Hcut as (((He & Hkp) & Hkm) & Hpr).
  split.
  - intros target Hin.
    assert (1 <= count_good target (REC_Particle_pid ev) (REC_Particle_pass ev))%Z as Hc.
    { simpl in Hin. destruct Hin as [<- | [<- | [<- | [<- | []]]]]; lia. }
    apply count_good_pos_iff in Hc. destruct Hc as [i0 Hi0].
    destruct (candidate_has_first _ _ _ _ Hp Hi0) as [i Hi].
    destruct (select_hit ev Hpar target i Hi) as (x & y & z & H).
    exists i, x, y, z. split; [exact Hi | exact H].
  - intros i j. now apply count_good_one_unique.
Qed.

Lemma exclusive_cut_selects_particles_witness :
  parallel four_detected /\
  exists i x y z,
    first_candidate 321 (REC_Particle_pid four_detected)
                    (REC_Particle_pass four_detected) i /\
    REC_Particle_px four_detected !! i = Some x /\
    REC_Particle_py four_detected !! i = Some y /\
    REC_Particle_pz four_detected !! i = Some z /\
    select four_detected 321 = Some (x, y, z).
Proof.
  split; [exact four_detected_parallel |].
  apply (proj1 (exclusive_cut_selects_particles four_detected
                  four_detected_parallel eq_refl) 321%Z).
  right; right; left; reflexivity.
Defined.

(** ** The cuts do not depend on the order of the particles *)

Lemma count_good_pairs k pid pass :
  count_good k pid pass = count_pairs k (combine pid pass).
Proof.
  revert pass. induction pid as [| id pid IH]; intros [| ok pass]; simpl;
    try reflexivity.
  now rewrite IH.
Qed.

Lemma count_pairs_perm k l l' :
  Permutation l l' -> count_pairs k l = count_pairs k l'.
Proof.
  induction 1 as [| [id ok] l l' _ IH | [id1 ok1] [id2 ok2] l | l l' l'' _ IH1 _ IH2];
    simpl; try lia.
Qed.

(** X10. Reordering the particles of an event, pid and pass flag together,
    changes neither the verdict of the exclusive-phi cut nor that of the
    missing-K- cut. *)
Theorem cuts_permutation_invariant
    (pid pid' : list Z) (pass pass' daughterPass daughterPass' : list bool) :
  length pass = length pid ->
  length pass' = length pid' ->
  Permutation (combine pid pass) (combine pid' pass') ->
  SelectExclusivePhiEvent pid pass daughterPass
  = SelectExclusivePhiEvent pid' pass' daughterPass' /\
  SelectPhiEvent_MissingKm pid pass = SelectPhiEvent_MissingKm pid' pass'.
Proof.
  intros Hp Hp' Hperm.
  assert (forall k, count_good k pid pass = count_good k pid' pass') as Hcnt.
  { intros k. rewrite !count_good_pairs. now apply count_pairs_perm. }
  rewrite (SelectExclusivePhiEvent_counts pid pass Hp),
          (SelectExclusivePhiEvent_counts pid' pass' Hp'),
          (SelectPhiEvent_MissingKm_counts pid pass Hp),
          (SelectPhiEvent_MissingKm_counts pid' pass' Hp').
  now rewrite !Hcnt.
Qed.

Lemma four_detected_reordering :
  Permutation
    (combine (REC_Particle_pid four_detected) (REC_Particle_pass four_detected))
    (combine (REC_Particle_pid four_detected_reordered)
             (REC_Particle_pass four_detected_reordered)).
Proof.
  simpl.
  apply (Permutation_cons_app [(2212%Z, true); (321%Z, true)] [((-321)%Z, true)]).
  apply (Permutation_cons_app [(2212%Z, true); (321%Z, true)] []).
  apply perm_swap.
Defined.

Lemma cuts_permutation_invariant_witness :
  SelectExclusivePhiEvent (REC_Particle_pid four_detected)
    (REC_Particle_pass four_detected) (REC_DaughterParticle_pass four_detected)
  = SelectExclusivePhiEvent (REC_Particle_pid four_detected_reordered)
      (REC_Particle_pass four_detected_reordered)
      (REC_DaughterParticle_pass four_detected_reordered).
Proof.
  exact (proj1 (cuts_permutation_invariant
                  (REC_Particle_pid four_detected)
                  (REC_Particle_pid four_detected_reordered)
                  (REC_Particle_pass four_detected)
                  (REC_Particle_pass four_detected_reordered)
                  (REC_DaughterParticle_pass four_detected)
                  (REC_DaughterParticle_pass four_detected_reordered)
                  eq_refl eq_refl four_detected_reordering)).
Defined.

(** ** Selection over a longer event *)

Lemma candidate_app_l target pid pid' pass pass' i :
  candidate target pid pass i ->
  candidate target (pid ++ pid') (pass ++ pass') i.
Proof. intros [H1 H2]. split; now apply lookup_app_l_Some. Qed.

Lemma candidate_app_inv target pid pid' pass pass' j :
  length pass = length pid ->
  candidate target (pid ++ pid') (pass ++ pass') j ->
  ((j < length pid)%nat -> candidate target pid pass j) /\
  ((length pid <= j)%nat -> candidate target pid' pass' (j - length pid)).
Proof.
  intros Hp [H1 H2]. split; intros Hj.
  - rewrite lookup_app_l in H1 by lia. rewrite lookup_app_l in H2 by lia.
    split; assumption.
  - rewrite lookup_app_r in H1 by lia. rewrite lookup_app_r in H2 by lia.
    rewrite Hp in H2. split; assumption.
Qed.

(** X11. Selection over two runs of particles placed end to end: when the
    first run holds a good particle of the species, the particles after it
    are never looked at; when it holds none, the result is that of the
    second run alone. *)
Theorem pick_app (target : Z) (pid pid' : list Z) (v v' : list R)
    (pass pass' : list bool) :
  length pass = length pid -> length v = length pid ->
  length pass' = length pid' ->
  ((exists i, candidate target pid pass i) ->
   pick target (pid ++ pid') (v ++ v') (pass ++ pass') = pick target pid v pass) /\
  ((forall i, ~ candidate target pid pass i) ->
   pick target (pid ++ pid') (v ++ v') (pass ++ pass') = pick target pid' v' pass').
Proof.
  intros Hp Hv Hp'.
  assert (length (pass ++ pass') = length (pid ++ pid')) as Hpp
    by (rewrite !length_app; lia).
  split.
  - intros [i Hi].
    destruct (candidate_has_first _ _ _ _ Hp Hi) as [k [Hk Hmin]].
    assert (k < length pid)%nat as Hlt by (destruct Hk as [Hc _]; now apply lookup_lt_Some in Hc).
    destruct (lookup_lt_is_Some_2 v k) as [x Hx]; [lia |].
    rewrite (pick_hit target pid v pass k x Hp (conj Hk Hmin) Hx).
    apply (pick_hit _ _ _ _ k x Hpp); [| now apply lookup_app_l_Some].
    split; [now apply candidate_app_l |].
    intros j Hj Hc. apply (Hmin j Hj).
    apply (candidate_app_inv _ _ _ _ _ _ Hp Hc). lia.
  - intros Hnone.
    destruct (first_candidate_dec target pid' pass' Hp') as [[k [Hk Hmin]] | Hnone'].
    + unfold pick.
      rewrite (scan_first_hit target pid' pass' _ _ Hp' k (conj Hk Hmin)).
      rewrite (scan_first_hit target _ _ _ _ Hpp (length pid + k)).
      * rewrite lookup_app_r by lia. f_equal. lia.
      * destruct Hk as [Hk1 Hk2]. split; [split |].
        -- rewrite lookup_app_r by lia. rewrite <- Hk1. f_equal. lia.
        -- rewrite lookup_app_r by lia. rewrite <- Hk2. f_equal. lia.
        -- intros j Hj Hc.
           destruct (candidate_app_inv _ _ _ _ _ _ Hp Hc) as [Hl Hr].
           destruct (Nat.lt_ge_cases j (length pid)) as [Hjl | Hjr].
           ++ exact (Hnone j (Hl Hjl)).
           ++ apply (Hmin (j - length pid)%nat); [lia | exact (Hr Hjr)].
    + rewrite (pick_miss target pid' v' pass' Hp' Hnone').
      apply pick_miss; [exact Hpp |].
      intros j Hc. destruct (candidate_app_inv _ _ _ _ _ _ Hp Hc) as [Hl Hr].
      destruct (Nat.lt_ge_cases j (length pid)) as [Hjl | Hjr].
      * exact (Hnone j (Hl Hjl)).
      * exact (Hnone' _ (Hr Hjr)).
Qed.

Lemma pick_app_witness :
  pick 321 ([11; 321] ++ [321])%Z ([1; 2] ++ [3]) ([true; true] ++ [true])
  = pick 321 [11; 321]%Z [1; 2] [true; true] /\
  pick 2212 ([11; 321] ++ [2212])%Z ([1; 2] ++ [3]) ([true; true] ++ [true])
  = pick 2212 [2212]%Z [3] [true].
Proof.
  split.
  - apply (proj1 (pick_app 321 [11; 321]%Z [321]%Z [1; 2] [3] [true; true] [true]
                    eq_refl eq_refl eq_refl)).
    exists 1%nat. split; reflexivity.
  - apply (proj2 (pick_app 2212 [11; 321]%Z [2212]%Z [1; 2] [3] [true; true] [true]
                    eq_refl eq_refl eq_refl)).
    intros [| [| i]] [Hc _]; discriminate Hc.
Defined.

(** ** Detector regions after the filter *)

Lemma region_of_unknown st :
  region_of st = (-1)%Z <->
  (Z.abs st < 1000 \/ 3000 <= Z.abs st < 4000 \/ 5000 <= Z.abs st)%Z.
Proof.
  destruct (region_of_ranges st) as (H0 & H1 & H2 & H3).
  split; [| exact H3].
  intros Hr.
  destruct (Z_lt_ge_dec (Z.abs st) 1000); [now left |].
  destruct (Z_lt_ge_dec (Z.abs st) 2000); [rewrite H0 in Hr by lia; discriminate |].
  destruct (Z_lt_ge_dec (Z.abs st) 3000); [rewrite H1 in Hr by lia; discriminate |].
  destruct (Z_lt_ge_dec (Z.abs st) 4000); [right; left; lia |].
  destruct (Z_lt_ge_dec (Z.abs st) 5000); [rewrite H2 in Hr by lia; discriminate |].
  right; right; lia.
Qed.

Lemma filter_true_found (ev : Event) (target : Z) :
  parallel ev ->
  InitKinematics_Filter ev = Some true ->
  In target [11; -321; 321; 2212]%Z ->
  exists k, first_candidate target (REC_Particle_pid ev) (REC_Particle_pass ev) k.
Proof.
  intros (Hx & _ & _ & Hp & _) Hf Hin.
  destruct (first_candidate_dec target _ _ Hp) as [Hk | Hnone]; [exact Hk |].
  exfalso.
  pose proof (pick_miss target _ (REC_Particle_px ev) _ Hp Hnone) as Hmiss.
  destruct (pick_total 11 _ _ _ Hp Hx) as [ex Hex].
  destruct (pick_total (-321) _ _ _ Hp Hx) as [kmx Hkmx].
  destruct (pick_total 321 _ _ _ Hp Hx) as [kpx Hkpx].
  destruct (pick_total 2212 _ _ _ Hp Hx) as [px Hpx].
  unfold InitKinematics_Filter, ele_px, kMinus_px, kPlus_px, pro_px in Hf.
  rewrite Hex, Hkmx, Hkpx, Hpx in Hf. injection Hf as Hf.
  apply found_lambda_true in Hf. destruct Hf as (N1 & N2 & N3 & N4).
  unfold NOT_FOUND in Hmiss. simpl in Hin.
  destruct Hin as [<- | [<- | [<- | [<- | []]]]]; congruence.
Qed.

(** X13. In an event kept by the filter of the all-detected pipeline every
    species has a first good particle, and each region column classifies
    the status of that particle: there a region of -1 always means a status
    outside the three ranges, never a missing particle. *)
Theorem filter_gives_regions (ev : Event) (target : Z) (col : Event -> ub Z) :
  parallel ev ->
  InitKinematics_Filter ev = Some true ->
  In (target, col) det_region_columns ->
  exists i st r,
    first_candidate target (REC_Particle_pid ev) (REC_Particle_pass ev) i /\
    REC_Particle_status ev !! i = Some st /\
    col ev = Some r /\
    (r = (-1)%Z <->
     (Z.abs st < 1000 \/ 3000 <= Z.abs st < 4000 \/ 5000 <= Z.abs st)%Z).
Proof.
  intros Hpar Hf Hin.
  assert (In target [11; -321; 321; 2212]%Z) as Ht.
  { simpl in Hin. simpl.
    destruct Hin as [H | [H | [H | [H | []]]]]; injection H as <- _; tauto. }
  destruct (filter_true_found ev target Hpar Hf Ht) as [k Hk].
  destruct Hpar as (_ & _ & _ & Hp & _ & Hst).
  destruct (lookup_lt_is_Some_2 (REC_Particle_status ev) k) as [st Est].
  { destruct Hk as [[Hc _] _]. apply lookup_lt_Some in Hc. lia. }
  exists k, st, (region_of st).
  split; [exact Hk |]. split; [exact Est |]. split; [| apply region_of_unknown].
  rewrite (det_region_column _ _ ev Hin). unfold det_region.
  rewrite (scan_first_hit _ _ _ _ _ Hp k Hk). now rewrite Est.
Qed.

Lemma four_detected_kept : InitKinematics_Filter four_detected = Some true.
Proof.
  unfold InitKinematics_Filter. simpl. f_equal.
  apply found_lambda_true. repeat split; lra.
Defined.

Lemma filter_gives_regions_witness :
  parallel four_detected /\
  InitKinematics_Filter four_detected = Some true /\
  exists i st r,
    first_candidate 321 (REC_Particle_pid four_detected)
                    (REC_Particle_pass four_detected) i /\
    REC_Particle_status four_detected !! i = Some st /\
    kPlus_det_region four_detected = Some r /\
    (r = (-1)%Z <->
     (Z.abs st < 1000 \/ 3000 <= Z.abs st < 4000 \/ 5000 <= Z.abs st)%Z).
Proof.
  split; [exact four_detected_parallel |]. split; [exact four_detected_kept |].
  exact (filter_gives_regions four_detected 321 kPlus_det_region
           four_detected_parallel four_detected_kept
           (or_intror (or_intror (or_introl eq_refl)))).
Defined.

(** * The missing-kaon pipelines *)

Lemma ThetaFunc_None_iff a b c :
  ThetaFunc a b c = None <-> a = 0 /\ b = 0 /\ c = 0.
Proof.
  split.
  - intros Hnone.
    destruct (Req_dec_T a 0) as [-> | Ha];
      [| rewrite ThetaFunc_nonzero in Hnone by (now left); discriminate].
    destruct (Req_dec_T b 0) as [-> | Hb];
      [| rewrite ThetaFunc_nonzero in Hnone by (now right; left); discriminate].
    destruct (Req_dec_T c 0) as [-> | Hc];
      [| rewrite ThetaFunc_nonzero in Hnone by (now right; right); discriminate].
    repeat split.
  - intros (-> & -> & ->). apply ThetaFunc_zero.
Qed.

Lemma select_total (ev : Event) (target : Z) :
  parallel ev ->
  exists x y z,
    pick target (REC_Particle_pid ev) (REC_Particle_px ev) (REC_Particle_pass ev) = Some x /\
    pick target (REC_Particle_pid ev) (REC_Particle_py ev) (REC_Particle_pass ev) = Some y /\
    pick target (REC_Particle_pid ev) (REC_Particle_pz ev) (REC_Particle_pass ev) = Some z /\
    select ev target = Some (x, y, z) /\
    ((forall i, ~ candidate target (REC_Particle_pid ev) (REC_Particle_pass ev) i) ->
     x = -999 /\ y = -999 /\ z = -999).
Proof.
  intros (Hx & Hy & Hz & Hp & _).
  destruct (pick_total target _ _ _ Hp Hx) as [x Ex].
  destruct (pick_total target _ _ _ Hp Hy) as [y Ey].
  destruct (pick_total target _ _ _ Hp Hz) as [z Ez].
  exists x, y, z. repeat (split; [assumption |]). split.
  - unfold select. now rewrite Ex, Ey, Ez.
  - intros Hnone.
    rewrite (pick_miss _ _ _ _ Hp Hnone) in Ex.
    rewrite (pick_miss _ _ _ _ Hp Hnone) in Ey.
    rewrite (pick_miss _ _ _ _ Hp Hnone) in Ez. unfold NOT_FOUND in *.
    repeat split; congruence.
Qed.

(** The columns of a missing-kaon pipeline whose detected kaon is [kaon]. *)
Lemma missing_columns (beam_energy : R) (ev : Event) (kaon : Z) :
  parallel ev ->
  let kx_col := fun ev => pick kaon (REC_Particle_pid ev) (REC_Particle_px ev) (REC_Particle_pass ev) in
  let ky_col := fun ev => pick kaon (REC_Particle_pid ev) (REC_Particle_py ev) (REC_Particle_pass ev) in
  let kz_col := fun ev => pick kaon (REC_Particle_pid ev) (REC_Particle_pz ev) (REC_Particle_pass ev) in
  let miss comp :=
    define9 (missing_kaon comp beam_energy)
      ele_px ele_py ele_pz pro_px pro_py pro_pz kx_col ky_col kz_col in
  exists ex ey ez px py pz kx ky kz,
    select ev 11 = Some (ex, ey, ez) /\
    select ev 2212 = Some (px, py, pz) /\
    select ev kaon = Some (kx, ky, kz) /\
    ((forall i, ~ candidate kaon (REC_Particle_pid ev) (REC_Particle_pass ev) i) ->
     kx = -999 /\ ky = -999 /\ kz = -999) /\
    miss Px ev = Some (- ex - px - kx) /\
    miss Py ev = Some (- ey - py - ky) /\
    miss Pz ev = Some (beam_energy - ez - pz - kz) /\
    (exists p, define3 MomentumFunc (miss Px) (miss Py) (miss Pz) ev = Some p) /\
    (exists phi, define2 PhiFunc (miss Px) (miss Py) ev = Some phi) /\
    (define3 ThetaFunc (miss Px) (miss Py) (miss Pz) ev = None <->
     ex + px + kx = 0 /\ ey + py + ky = 0 /\ ez + pz + kz = beam_energy).
Proof.
  intros Hpar kx_col ky_col kz_col miss.
  destruct (select_total ev 11 Hpar) as (ex & ey & ez & Eex & Eey & Eez & Ese & _).
  destruct (select_total ev 2212 Hpar) as (px & py & pz & Epx & Epy & Epz & Esp & _).
  destruct (select_total ev kaon Hpar) as (kx & ky & kz & Ekx & Eky & Ekz & Esk & Hk).
  exists ex, ey, ez, px, py, pz, kx, ky, kz.
  assert (forall comp, miss comp ev =
            Some (comp (pBeam beam_energy + pTarg - on_shell ex ey ez kMe
                        - on_shell px py pz kMp - on_shell kx ky kz kMK)%lv)) as Hmiss.
  { intros comp. subst miss kx_col ky_col kz_col.
    unfold define9, ele_px, ele_py, ele_pz, pro_px, pro_py, pro_pz.
    rewrite Eex, Eey, Eez, Epx, Epy, Epz, Ekx, Eky, Ekz.
    apply missing_kaon_total. }
  assert (miss Px ev = Some (- ex - px - kx)) as Hmx
    by (rewrite Hmiss; simpl; f_equal; ring).
  assert (miss Py ev = Some (- ey - py - ky)) as Hmy
    by (rewrite Hmiss; simpl; f_equal; ring).
  assert (miss Pz ev = Some (beam_energy - ez - pz - kz)) as Hmz
    by (rewrite Hmiss; simpl; f_equal; ring).
  repeat (split; [assumption |]).
  unfold define3, define2. rewrite Hmx, Hmy, Hmz.
  split; [eexists; apply MomentumFunc_total |].
  split; [eexists; reflexivity |].
  rewrite ThetaFunc_None_iff. split; intros (H1 & H2 & H3); repeat split; lra.
Qed.







(** X16. In an event kept by the missing-K- cut the reconstruction works on
    three particles of the event: the only good electron, the first good
    proton and the first good K+; the reconstructed K- columns are the beam
    momentum minus the momenta of these three. *)
Theorem MissingKm_cut_reconstructs (beam_energy : R) (ev : Event) :
  parallel ev ->
  SelectPhiEvent_MissingKm (REC_Particle_pid ev) (REC_Particle_pass ev) = Some true ->
  exists ie ip ik ex ey ez px py pz kx ky kz,
    (first_candidate 11 (REC_Particle_pid ev) (REC_Particle_pass ev) ie /\
     first_candidate 2212 (REC_Particle_pid ev) (REC_Particle_pass ev) ip /\
     first_candidate 321 (REC_Particle_pid ev) (REC_Particle_pass ev) ik) /\
    (forall j, candidate 11 (REC_Particle_pid ev) (REC_Particle_pass ev) j -> j = ie) /\
    (REC_Particle_px ev !! ie = Some ex /\ REC_Particle_py ev !! ie = Some ey /\
     REC_Particle_pz ev !! ie = Some ez) /\
    (REC_Particle_px ev !! ip = Some px /\ REC_Particle_py ev !! ip = Some py /\
     REC_Particle_pz ev !! ip = Some pz) /\
    (REC_Particle_px ev !! ik = Some kx /\ REC_Particle_py ev !! ik = Some ky /\
     REC_Particle_pz ev !! ik = Some kz) /\
    MissingKm.kMinus_miss_px beam_energy ev = Some (- ex - px - kx) /\
    MissingKm.kMinus_miss_py beam_energy ev = Some (- ey - py - ky) /\
    MissingKm.kMinus_miss_pz beam_energy ev = Some (beam_energy - ez - pz - kz).
Proof.
  intros Hpar Hcut.
  pose proof Hpar as (_ & _ & _ & Hp & _).
  rewrite (SelectPhiEvent_MissingKm_counts _ _ Hp) in Hcut.
  injection Hcut as Hcut. rewrite !andb_true_iff, Z.eqb_eq, !Z.leb_le in Hcut.
  destruct Hcut as ((He & Hkp) & Hpr).
  assert (forall target,
            (1 <= count_good target (REC_Particle_pid ev) (REC_Particle_pass ev))%Z ->
            exists i x y z,
              first_candidate target (REC_Particle_pid ev) (REC_Particle_pass ev) i /\
              REC_Particle_px ev !! i = Some x /\ REC_Particle_py ev !! i = Some y /\
              REC_Particle_pz ev !! i = Some z /\ select ev target = Some (x, y, z))
    as Hfound.
  { intros target Hc. apply count_good_pos_iff in Hc. destruct Hc as [i0 Hi0].
    destruct (candidate_has_first _ _ _ _ Hp Hi0) as [i Hi].
    destruct (select_hit ev Hpar target i Hi) as (x & y & z & H).
    exists i, x, y, z. split; [exact Hi | exact H]. }
  destruct (Hfound 11%Z) as (ie & ex & ey & ez & Hie & Ex & Ey & Ez & Se); [lia |].
  destruct (Hfound 2212%Z) as (ip & px & py & pz & Hip & Px' & Py' & Pz' & Sp); [lia |].
  destruct (Hfound 321%Z) as (ik & kx & ky & kz & Hik & Kx & Ky & Kz & Sk); [lia |].
  exists ie, ip, ik, ex, ey, ez, px, py, pz, kx, ky, kz.
  split; [repeat split; (apply Hie || apply Hip || apply Hik) |].
  split; [intros j Hj; apply (count_good_one_unique _ _ _ _ _ He Hj), Hie |].
  do 3 (split; [repeat split; assumption |]).
  destruct (missing_columns beam_energy ev 321 Hpar)
    as (ex' & ey' & ez' & px' & py' & pz' & kx' & ky' & kz'
        & Se' & Sp' & Sk' & _ & Hmx & Hmy & Hmz & _).
  rewrite Se in Se'. rewrite Sp in Sp'. rewrite Sk in Sk'.
  injection Se' as -> -> ->. injection Sp' as -> -> ->. injection Sk' as -> -> ->.
  repeat split; assumption.
Qed.

Lemma MissingKm_cut_reconstructs_witness :
  parallel four_detected /\
  MissingKm.kMinus_miss_px (106 / 10) four_detected = Some (- 1 - 1 - 1) /\
  MissingKm.kMinus_miss_pz (106 / 10) four_detected = Some (106 / 10 - 3 - 3 - 3).
Proof.
  split; [exact four_detected_parallel |].
  destruct (MissingKm_cut_reconstructs (106 / 10) four_detected
              four_detected_parallel eq_refl)
    as (ie & ip & ik & ex & ey & ez & px & py & pz & kx & ky & kz
        & (Hie & Hip & Hik) & _ & (Ex & _ & Ez) & (Px' & _ & Pz') & (Kx & _ & Kz)
        & Hmx & _ & Hmz).
  assert (forall target i x,
            first_candidate target (REC_Particle_pid four_detected)
                            (REC_Particle_pass four_detected) i ->
            REC_Particle_px four_detected !! i = Some x -> x = 1) as Hx1.
  { intros target i x [[Hc _] _] Hx. apply lookup_lt_Some in Hc. simpl in Hc.
    destruct i as [| [| [| [| i]]]]; try lia; injection Hx as <-; reflexivity. }
  assert (forall target i z,
            first_candidate target (REC_Particle_pid four_detected)
                            (REC_Particle_pass four_detected) i ->
            REC_Particle_pz four_detected !! i = Some z -> z = 3) as Hz3.
  { intros target i z [[Hc _] _] Hz. apply lookup_lt_Some in Hc. simpl in Hc.
    destruct i as [| [| [| [| i]]]]; try lia; injection Hz as <-; reflexivity. }
  rewrite (Hx1 _ _ _ Hie Ex), (Hx1 _ _ _ Hip Px'), (Hx1 _ _ _ Hik Kx) in Hmx.
  rewrite (Hz3 _ _ _ Hie Ez), (Hz3 _ _ _ Hip Pz'), (Hz3 _ _ _ Hik Kz) in Hmz.
  split; [exact Hmx | exact Hmz].
Defined.
